(** * ts-socket: the chat server's broker, embedded in Rocq

    The server (the socket.io handlers registered in [io.on('connection')])
    keeps three module-level stores, [users], [messages] and [rooms], and a
    per-socket [socket.data.user].  Every handler is translated statement by
    statement into a small state-and-exception monad over a [World] record;
    what a handler sends (emits, acknowledgement callbacks) is appended to the
    world's [effects] in program order. *)

From Stdlib Require Import ZArith Ascii String.
From stdpp Require Import gmap strings list pretty sorting.

Set Warnings "-clear-no-such-hyp".

Local Open Scope string_scope.
Local Open Scope list_scope.
Local Open Scope Z_scope.

(** ** JavaScript strings

    A string is a sequence of code units; the model covers the code units
    U+0000..U+00FF, one [ascii] each.  In that range [String.prototype.trim]
    strips TAB, LF, VT, FF, CR, SPACE and NBSP, and
    [String.prototype.toLowerCase] shifts A..Z and the Latin-1 capitals
    U+00C0..U+00DE (except the multiplication sign U+00D7) by 32. *)

Definition isWhiteSpace (c : ascii) : bool :=
  let n := N_of_ascii c in
  ((n =? 9) || (n =? 10) || (n =? 11) || (n =? 12) || (n =? 13)
   || (n =? 32) || (n =? 160))%N.

Fixpoint trimStart (s : string) : string :=
  match s with
  | EmptyString => EmptyString
  | String c s' => if isWhiteSpace c then trimStart s' else s
  end.

Fixpoint trimEnd (s : string) : string :=
  match s with
  | EmptyString => EmptyString
  | String c s' =>
      match trimEnd s' with
      | EmptyString => if isWhiteSpace c then EmptyString else String c EmptyString
      | t => String c t
      end
  end.

Definition trim (s : string) : string := trimEnd (trimStart s).

Definition toLowerCaseUnit (c : ascii) : ascii :=
  let n := N_of_ascii c in
  if ((65 <=? n) && (n <=? 90))%N then ascii_of_N (n + 32)
  else if ((192 <=? n) && (n <=? 222) && negb (n =? 215))%N then ascii_of_N (n + 32)
  else c.

Fixpoint toLowerCase (s : string) : string :=
  match s with
  | EmptyString => EmptyString
  | String c s' => String (toLowerCaseUnit c) (toLowerCase s')
  end.

(** [!s] on a string: only the empty string is falsy. *)
Definition falsy (s : string) : bool := String.eqb s "".

(** [Number.prototype.toString] on the integers [Date.now()] returns (far
    below 1e21, where JavaScript switches to exponent notation): the decimal
    digits, with a leading minus sign below zero. *)
Definition toString (n : Z) : string := pretty n.

(** [Array.prototype.slice(start)] with one argument: a negative [start]
    counts from the end, and both directions are clamped to the array. *)
Definition slice {A} (start : Z) (l : list A) : list A :=
  let len := Z.of_nat (length l) in
  let k := if start <? 0 then Z.max (len + start) 0 else Z.min start len in
  drop (Z.to_nat k) l.

(** ** Data (shared/types.ts)

    A [Date] is the millisecond reading it was built from. *)

Record User := mkUser {
  user_id : string;
  user_username : string;
  user_joinedAt : Z
}.

Inductive MessageType := text | system.

Record Message := mkMessage {
  msg_id : string;
  msg_userId : string;
  msg_username : string;
  msg_content : string;
  msg_timestamp : Z;
  msg_type : MessageType
}.

Record Room := mkRoom {
  room_id : string;
  room_name : string;
  room_users : list User;
  room_createdAt : Z
}.

(** [Room.users] is reassigned by the disconnect handler. *)
Definition set_room_users (f : list User → list User) (r : Room) : Room :=
  mkRoom (room_id r) (room_name r) (f (room_users r)) (room_createdAt r).

(** ** [Map<string, V>]: keys in insertion order

    [Array.from(m.values())] lists the values in insertion order; [set] on a
    present key keeps the key's position, [delete] leaves no entry under the
    key. *)
Module JsMap.
Definition t (V : Type) : Type := list (string * V).

Definition empty {V} : t V := [].

Fixpoint get {V} (k : string) (m : t V) : option V :=
  match m with
  | [] => None
  | (k', v) :: m' => if String.eqb k' k then Some v else get k m'
  end.

Fixpoint set {V} (k : string) (v : V) (m : t V) : t V :=
  match m with
  | [] => [(k, v)]
  | (k', v') :: m' =>
      if String.eqb k' k then (k', v) :: m' else (k', v') :: set k v m'
  end.

Fixpoint delete {V} (k : string) (m : t V) : t V :=
  match m with
  | [] => []
  | (k', v') :: m' =>
      if String.eqb k' k then delete k m' else (k', v') :: delete k m'
  end.

Definition keys {V} (m : t V) : list string := fmap fst m.
Definition values {V} (m : t V) : list V := fmap snd m.

(** [m.forEach(v => ...)] where the callback updates each value in place. *)
Definition forEach {V} (f : V → V) (m : t V) : t V :=
  fmap (λ kv, (fst kv, f (snd kv))) m.
End JsMap.

(** ** What a handler sends *)

Inductive ServerEvent :=
  | user_joined (user : User)
  | user_left (user : User)
  | users_list (us : list User)
  | message_new (message : Message)
  | message_history (ms : list Message)
  | room_created (room : Room)
  | rooms_list (rs : list Room)
  | error (e : string)
  | notification (message : string).

(** The arguments of the acknowledgement callbacks. *)
Inductive Ack :=
  | join_ack (success : bool) (err : option string)
  | send_ack (success : bool)
  | create_ack (room : option Room).

Inductive Effect :=
  | socket_emit (socket_id : string) (ev : ServerEvent)
      (* socket.emit: to this socket only *)
  | socket_broadcast_emit (socket_id : string) (ev : ServerEvent)
      (* socket.broadcast.emit: to every socket but this one *)
  | io_emit (ev : ServerEvent)
      (* io.emit: to every socket *)
  | callback (socket_id : string) (a : Ack)
  | socket_join (socket_id : string) (room : string).

(** Does the connection [c] receive the effect? *)
Definition delivered_to (c : string) (e : Effect) : bool :=
  match e with
  | socket_emit s _ => String.eqb s c
  | socket_broadcast_emit s _ => negb (String.eqb s c)
  | io_emit _ => true
  | callback _ _ | socket_join _ _ => false
  end.

Definition is_broadcast (e : Effect) : bool :=
  match e with
  | socket_broadcast_emit _ _ | io_emit _ => true
  | _ => false
  end.

Definition is_unicast_to (c : string) (e : Effect) : bool :=
  match e with
  | socket_emit s _ => String.eqb s c
  | _ => false
  end.

(** ** The world

    [clock] is the environment: the [n]-th reading of the wall clock taken by
    the server ([Date.now()] or [new Date()]) returns [clock n]; [reads]
    counts the readings taken so far. *)

Record World := mkWorld {
  users : JsMap.t User;
  messages : list Message;
  rooms : JsMap.t Room;
  socket_data : gmap string User;   (* socket.id ↦ socket.data.user *)
  clock : nat → Z;
  reads : nat;
  effects : list Effect
}.

Definition with_users (v : JsMap.t User) (w : World) : World :=
  mkWorld v (messages w) (rooms w) (socket_data w) (clock w) (reads w) (effects w).
Definition with_messages (v : list Message) (w : World) : World :=
  mkWorld (users w) v (rooms w) (socket_data w) (clock w) (reads w) (effects w).
Definition with_rooms (v : JsMap.t Room) (w : World) : World :=
  mkWorld (users w) (messages w) v (socket_data w) (clock w) (reads w) (effects w).
Definition with_socket_data (v : gmap string User) (w : World) : World :=
  mkWorld (users w) (messages w) (rooms w) v (clock w) (reads w) (effects w).
Definition with_reads (v : nat) (w : World) : World :=
  mkWorld (users w) (messages w) (rooms w) (socket_data w) (clock w) v (effects w).
Definition with_effects (v : list Effect) (w : World) : World :=
  mkWorld (users w) (messages w) (rooms w) (socket_data w) (clock w) (reads w) v.

(** ** The handler monad: state, plus exceptions for [try]/[catch] *)

Inductive Outcome (A : Type) :=
  | Returned (a : A)
  | Thrown.
Arguments Returned {A} a.
Arguments Thrown {A}.

Definition Handler (A : Type) : Type := World → Outcome A * World.

Global Instance handler_ret : MRet Handler := λ A a w, (Returned a, w).
Global Instance handler_bind : MBind Handler := λ A B f m w,
  match m w with
  | (Returned a, w') => f a w'
  | (Thrown, w') => (Thrown, w')
  end.

Definition throw {A} : Handler A := λ w, (Thrown, w).

(** A thrown exception keeps the mutations made before it. *)
Definition try_catch (body handler : Handler unit) : Handler unit := λ w,
  match body w with
  | (Returned a, w') => (Returned a, w')
  | (Thrown, w') => handler w'
  end.

Definition read {A} (f : World → A) : Handler A := λ w, (Returned (f w), w).
Definition modify (f : World → World) : Handler unit := λ w, (Returned (), f w).

Definition Date_now : Handler Z := λ w,
  (Returned (clock w (reads w)), with_reads (S (reads w)) w).
Definition new_Date : Handler Z := Date_now.

Definition send (e : Effect) : Handler unit :=
  modify (λ w, with_effects (effects w ++ [e]) w).

(** The world a handler leaves behind. *)
Definition exec {A} (m : Handler A) (w : World) : World := snd (m w).

(** ** The server's stores at start-up

    [users] and [messages] are empty; [rooms] holds the default room, whose
    [createdAt] is the first clock reading. *)

Definition defaultRoom (createdAt : Z) : Room :=
  mkRoom "general" "General" [] createdAt.

Definition init (clk : nat → Z) : World :=
  mkWorld JsMap.empty []
          (JsMap.set "general" (defaultRoom (clk 0%nat)) JsMap.empty)
          ∅ clk 1 [].

(** ** The handlers of [io.on('connection', socket => ...)]

    [socket_id] is [socket.id].  [console.log] is not modelled. *)

Definition push_message (m : Message) : Handler unit :=
  modify (λ w, with_messages (messages w ++ [m]) w).

(** [socket.on('user:join', (username, callback) => ...)]; [username] is a
    string, as [ClientToServerEvents] declares it.  A request that carries
    another value, on which [username.trim()] throws into the [catch] block,
    is outside this model. *)
Definition user_join (socket_id username : string) : Handler unit :=
  try_catch
    (if falsy username || (String.length (trim username) =? 0)%nat then
       send (callback socket_id (join_ack false (Some "Username cannot be empty")))
     else
       us ← read users;
       let existingUser :=
         List.find (λ u, String.eqb (toLowerCase (user_username u))
                                    (toLowerCase username))
                   (JsMap.values us) in
       match existingUser with
       | Some _ =>
           send (callback socket_id (join_ack false (Some "Username already taken")))
       | None =>
           joinedAt ← new_Date;
           let user := mkUser socket_id (trim username) joinedAt in
           modify (λ w, with_users (JsMap.set socket_id user (users w)) w);;
           modify (λ w, with_socket_data (<[socket_id := user]> (socket_data w)) w);;
           send (socket_join socket_id "general");;
           generalRoom ← read (λ w, JsMap.get "general" (rooms w));
           match generalRoom with
           | None => throw (* [undefined.users]: a TypeError *)
           | Some r =>
               modify (λ w, with_rooms
                 (JsMap.set "general" (set_room_users (λ l, l ++ [user]) r) (rooms w)) w)
           end;;
           send (socket_broadcast_emit socket_id (user_joined user));;
           us' ← read users;
           send (socket_emit socket_id (users_list (JsMap.values us')));;
           ms ← read messages;
           send (socket_emit socket_id (message_history (slice (-50) ms)));;
           id ← Date_now;
           timestamp ← new_Date;
           let systemMessage :=
             mkMessage (toString id) "system" "System"
                       (username +:+ " joined the chat") timestamp system in
           push_message systemMessage;;
           send (io_emit (message_new systemMessage));;
           send (callback socket_id (join_ack true None))
       end)
    (send (callback socket_id (join_ack false (Some "Internal server error")))).

(** [socket.on('message:send', (content, callback) => ...)] *)
Definition message_send (socket_id content : string) : Handler unit :=
  try_catch
    (user ← read (λ w, socket_data w !! socket_id);
     match user with
     | None =>
         send (callback socket_id (send_ack false));;
         send (socket_emit socket_id (error "You must join first"))
     | Some user =>
         if falsy content || (String.length (trim content) =? 0)%nat then
           send (callback socket_id (send_ack false))
         else
           id ← Date_now;
           timestamp ← new_Date;
           let message :=
             mkMessage (toString id) (user_id user) (user_username user)
                       (trim content) timestamp text in
           push_message message;;
           send (io_emit (message_new message));;
           send (callback socket_id (send_ack true))
     end)
    (send (callback socket_id (send_ack false))).

(** [socket.on('message:getHistory', (limit = 50) => ...)]; [None] is an
    omitted ([undefined]) argument. *)
Definition message_getHistory (socket_id : string) (limit : option Z)
  : Handler unit :=
  let limit := default 50 limit in
  ms ← read messages;
  let history := slice (- limit) ms in
  send (socket_emit socket_id (message_history history)).

(** [socket.on('room:create', (name, callback) => ...)] *)
Definition room_create (socket_id name : string) : Handler unit :=
  try_catch
    (user ← read (λ w, socket_data w !! socket_id);
     match user with
     | None => send (callback socket_id (create_ack None))
     | Some _ =>
         now ← Date_now;
         let roomId := "room-" +:+ toString now in
         createdAt ← new_Date;
         let room := mkRoom roomId (trim name) [] createdAt in
         modify (λ w, with_rooms (JsMap.set roomId room (rooms w)) w);;
         send (io_emit (room_created room));;
         send (callback socket_id (create_ack (Some room)))
     end)
    (send (callback socket_id (create_ack None))).

(** [socket.on('room:list', () => ...)] *)
Definition room_list (socket_id : string) : Handler unit :=
  rs ← read rooms;
  send (socket_emit socket_id (rooms_list (JsMap.values rs))).

(** [socket.on('typing:start', () => ...)] *)
Definition typing_start (socket_id : string) : Handler unit :=
  user ← read (λ w, socket_data w !! socket_id);
  match user with
  | Some user =>
      send (socket_broadcast_emit socket_id
              (notification (user_username user +:+ " is typing...")))
  | None => mret ()
  end.

(** [socket.on('typing:stop', () => ...)] *)
Definition typing_stop (socket_id : string) : Handler unit := mret ().

(** [socket.on('disconnect', () => ...)] *)
Definition disconnect (socket_id : string) : Handler unit :=
  user ← read (λ w, socket_data w !! socket_id);
  match user with
  | Some user =>
      modify (λ w, with_users (JsMap.delete socket_id (users w)) w);;
      modify (λ w, with_rooms
        (JsMap.forEach
           (set_room_users (filter (λ u, user_id u ≠ socket_id))) (rooms w)) w);;
      send (socket_broadcast_emit socket_id (user_left user));;
      id ← Date_now;
      timestamp ← new_Date;
      let systemMessage :=
        mkMessage (toString id) "system" "System"
                  (user_username user +:+ " left the chat") timestamp system in
      push_message systemMessage;;
      send (io_emit (message_new systemMessage))
  | None => mret ()
  end.

(** ** Traces: what the transport delivers to the server *)

Inductive Request :=
  | req_user_join (username : string)
  | req_message_send (content : string)
  | req_message_getHistory (limit : option Z)
  | req_room_create (name : string)
  | req_room_list
  | req_typing_start
  | req_typing_stop
  | req_disconnect.

Definition handle (socket_id : string) (r : Request) : Handler unit :=
  match r with
  | req_user_join username => user_join socket_id username
  | req_message_send content => message_send socket_id content
  | req_message_getHistory limit => message_getHistory socket_id limit
  | req_room_create name => room_create socket_id name
  | req_room_list => room_list socket_id
  | req_typing_start => typing_start socket_id
  | req_typing_stop => typing_stop socket_id
  | req_disconnect => disconnect socket_id
  end.

Definition step (w : World) (ev : string * Request) : World :=
  exec (handle ev.1 ev.2) w.

Definition run (evs : list (string * Request)) (w : World) : World :=
  foldl step w evs.

(** The worlds the server can be in: [init] followed by any trace. *)
Definition reachable (w : World) : Prop :=
  ∃ clk evs, w = run evs (init clk).

(** What one run of a handler sends. *)
Definition emitted {A} (m : Handler A) (w : World) : list Effect :=
  drop (length (effects w)) (effects (exec m w)).

(** ** Vocabulary of the specification *)

(** Empty or whitespace-only content. *)
Fixpoint whitespace_only (s : string) : bool :=
  match s with
  | EmptyString => true
  | String c s' => isWhiteSpace c && whitespace_only s'
  end.

Definition starts_with_whitespace (s : string) : bool :=
  match s with
  | EmptyString => false
  | String c _ => isWhiteSpace c
  end.

Fixpoint ends_with_whitespace (s : string) : bool :=
  match s with
  | EmptyString => false
  | String c EmptyString => isWhiteSpace c
  | String _ s' => ends_with_whitespace s'
  end.

(** [t] is [s] with its leading and trailing whitespace removed. *)
Definition stripped (s t : string) : Prop :=
  ∃ l r, s = l +:+ t +:+ r
         ∧ whitespace_only l = true ∧ whitespace_only r = true
         ∧ starts_with_whitespace t = false ∧ ends_with_whitespace t = false.

(** The Message Log's [tail(n)]: the last [min n len] entries, oldest first. *)
Definition tail {A} (n : nat) (l : list A) : list A :=
  drop (length l - n)%nat l.

(** Two usernames that differ by case only. *)
Definition same_name (a b : string) : bool :=
  String.eqb (toLowerCase a) (toLowerCase b).

(** The connection [c] is in the member list of room [r]. *)
Definition member_of (c : string) (r : Room) : Prop :=
  c ∈ user_id <$> room_users r.

(** I4: every member of every room is registered. *)
Definition I4 (w : World) : Prop :=
  ∀ r c, r ∈ JsMap.values (rooms w) → member_of c r →
         c ∈ JsMap.keys (users w).

(** Every unicast to [c] comes before every broadcast. *)
Definition unicasts_before_broadcasts (c : string) (es : list Effect) : Prop :=
  ∀ i j e1 e2, es !! i = Some e1 → es !! j = Some e2 →
    is_unicast_to c e1 = true → is_broadcast e2 = true → (i < j)%nat.

(** Every unicast to [c] comes before every broadcast that [c] receives. *)
Definition unicasts_before_received_broadcasts (c : string) (es : list Effect)
  : Prop :=
  ∀ i j e1 e2, es !! i = Some e1 → es !! j = Some e2 →
    is_unicast_to c e1 = true → is_broadcast e2 = true →
    delivered_to c e2 = true → (i < j)%nat.

(** The ids of the rooms handed back by [room:create]. *)
Fixpoint created_room_ids (es : list Effect) : list string :=
  match es with
  | [] => []
  | callback _ (create_ack (Some r)) :: es' => room_id r :: created_room_ids es'
  | _ :: es' => created_room_ids es'
  end.

(** How many participant-left broadcasts name the connection [c]. *)
Fixpoint count_user_left (c : string) (es : list Effect) : nat :=
  match es with
  | [] => 0
  | socket_broadcast_emit _ (user_left u) :: es' =>
      ((if String.eqb (user_id u) c then 1 else 0) + count_user_left c es')%nat
  | _ :: es' => count_user_left c es'
  end.

(** A clock that ticks between any two readings, and one that stands still
    for the whole run (every reading falls in the same millisecond). *)
Definition ticking_clock : nat → Z := λ n, 1700000000000 + Z.of_nat n.
Definition frozen_clock : nat → Z := λ _, 1700000000000.

(** [socket.data.user], once set, carries the socket's own id. *)
Definition socket_users_own_id (w : World) : Prop :=
  ∀ sid u, socket_data w !! sid = Some u → user_id u = sid.

(** A chat in which alice has joined on connection A and said hi. *)
Definition alice_said_hi : World :=
  run [("A", req_user_join "alice"); ("A", req_message_send "hi")]
      (init ticking_clock).

Definition alice : User := mkUser "A" "alice" 1700000000001.

(** The join handler's collision test: some registered username equals the
    requested one (as received, untrimmed) up to case. *)
Definition name_taken (w : World) (username : string) : bool :=
  existsb (λ v, same_name (user_username v) username) (JsMap.values (users w)).

(** The join request is acknowledged with a failure. *)
Definition join_rejected (w : World) (sid username : string) : Prop :=
  ∃ err, last (emitted (user_join sid username) w)
         = Some (callback sid (join_ack false err)).

(** alice joins on connection A, then connection B asks for the same name
    with a leading space. *)
Definition alice_and_padded_alice : World :=
  run [("A", req_user_join "alice"); ("B", req_user_join " alice")]
      (init ticking_clock).

(** Every id in the log is the decimal string of a clock reading already
    taken, and later messages carry later readings. *)
Definition log_ids_from_clock (w : World) : Prop :=
  ∃ idxs : list nat,
    msg_id <$> messages w = (λ i, toString (clock w i)) <$> idxs
    ∧ StronglySorted lt idxs
    ∧ Forall (λ i, (i < reads w)%nat) idxs.

(** The same chat with every clock reading in one millisecond. *)
Definition alice_said_hi_frozen : World :=
  run [("A", req_user_join "alice"); ("A", req_message_send "hi")]
      (init frozen_clock).

(** alice joins and creates the room "lobby", all in one millisecond. *)
Definition frozen_lobby : World :=
  run [("A", req_user_join "alice"); ("A", req_room_create "lobby")]
      (init frozen_clock).

(** Two participants whose usernames differ even up to case. *)
Definition different_names (u v : User) : Prop :=
  same_name (user_username u) (user_username v) = false.

(** I1: no two registered participants share a username up to case. *)
Definition users_distinct (w : World) : Prop :=
  ForallOrdPairs different_names (JsMap.values (users w)).

(** A join request, if the event is one, carries a name without surrounding
    whitespace. *)
Definition trimmed_join (ev : string * Request) : Prop :=
  ∀ name, ev.2 = req_user_join name → trim name = name.

(** ** The bundled client (class [ChatApp]): what its two forms send

    [value] is the text of the input field.  The acknowledgement callbacks
    only update the page and are not modelled. *)

Inductive ToastType := toast_success | toast_error | toast_info.

Inductive ClientAction :=
  | showToast (message : string) (type : ToastType)
  | client_emit (r : Request).

(** [ChatApp.handleLogin] *)
Definition handleLogin (value : string) : list ClientAction :=
  let username := trim value in
  if falsy username then [showToast "Please enter a username" toast_error]
  else [client_emit (req_user_join username)].

(** [ChatApp.handleSendMessage] *)
Definition handleSendMessage (value : string) : list ClientAction :=
  let content := trim value in
  if falsy content then []
  else [client_emit (req_message_send content)].

(** The join and send requests of the event, if it is one, are requests the
    bundled client sends for some text of its input field. *)
Definition from_client (ev : string * Request) : Prop :=
  match ev.2 with
  | req_user_join _ => ∃ value, handleLogin value = [client_emit ev.2]
  | req_message_send _ => ∃ value, handleSendMessage value = [client_emit ev.2]
  | _ => True
  end.

(** The messages of the message-added broadcasts, in the order sent. *)
Fixpoint broadcast_messages (es : list Effect) : list Message :=
  match es with
  | [] => []
  | io_emit (message_new m) :: es' => m :: broadcast_messages es'
  | _ :: es' => broadcast_messages es'
  end.

(** The effect reaches nobody but the connection [c]: it is an
    acknowledgement, or a unicast to [c]. *)
Definition private_to (c : string) (e : Effect) : bool :=
  match e with
  | socket_emit s _ => String.eqb s c
  | callback s _ => String.eqb s c
  | _ => false
  end.

(** The server's stores, without the clock counter and the effects. *)
Definition same_stores (w w' : World) : Prop :=
  users w' = users w ∧ messages w' = messages w ∧ rooms w' = rooms w
  ∧ socket_data w' = socket_data w.

(** The join handler's answer after its [catch] block ran. *)
Definition internal_server_error (e : Effect) : Prop :=
  ∃ sid, e = callback sid (join_ack false (Some "Internal server error")).

(** bob joins a chat that alice is in. *)
Definition alice_and_bob : World :=
  run [("A", req_user_join "alice"); ("A", req_message_send "hi");
       ("B", req_user_join "bob")]
      (init ticking_clock).

Definition bob : User := mkUser "B" "bob" 1700000000006.

(** A registry entry is the record of the socket it is filed under, with a
    trimmed, non-empty username. *)
Definition registry_entries_sound (w : World) : Prop :=
  ∀ sid u, JsMap.get sid (users w) = Some u →
    socket_data w !! sid = Some u
    ∧ user_id u = sid
    ∧ trim (user_username u) = user_username u
    ∧ user_username u ≠ "".

(** I2 with the default room in place: every registered connection is a
    member of "general". *)
Definition registered_in_general (w : World) : Prop :=
  ∃ g, JsMap.get "general" (rooms w) = Some g
       ∧ ∀ c, c ∈ JsMap.keys (users w) → member_of c g.

(** A room made by [room:create]: filed under its own id, which is not
    "general", and without members. *)
Definition created_room (kr : string * Room) : Prop :=
  room_id kr.2 = kr.1 ∧ room_users kr.2 = [] ∧ kr.1 ≠ "general".

(** The directory is the default room, as set up at start, followed by the
    created rooms. *)
Definition directory_shape (w : World) : Prop :=
  ∃ g rest, rooms w = ("general", g) :: rest
            ∧ room_id g = "general" ∧ room_name g = "General"
            ∧ room_createdAt g = clock w 0%nat
            ∧ Forall created_room rest.

(** What the log may hold: text messages with trimmed, non-empty content,
    and system messages signed "system" / "System". *)
Definition well_formed_message (m : Message) : Prop :=
  match msg_type m with
  | text => msg_content m ≠ "" ∧ trim (msg_content m) = msg_content m
  | system => msg_userId m = "system" ∧ msg_username m = "System"
  end.

(** ** socket.io's side of a connection

    The server's handlers are listeners on a socket.  socket.io calls them
    for the packets of an open socket, fires ['disconnect'] once, when the
    socket closes, and calls no listener of a closed socket.  The second
    component of the state holds the ids of the closed sockets. *)

Definition deliver (s : World * gset string) (ev : string * Request)
  : World * gset string :=
  if decide (ev.1 ∈ s.2) then s
  else (step s.1 ev,
        match ev.2 with
        | req_disconnect => {[ev.1]} ∪ s.2
        | _ => s.2
        end).

Definition deliver_all (evs : list (string * Request)) (s : World * gset string)
  : World * gset string :=
  foldl deliver s evs.

Definition start (clk : nat → Z) : World * gset string := (init clk, ∅).

(** The "left the chat" messages that were broadcast right after a
    participant-left broadcast naming the connection [c]. *)
Fixpoint left_messages (c : string) (es : list Effect) : list Message :=
  match es with
  | [] => []
  | socket_broadcast_emit _ (user_left u) :: es' =>
      match es' with
      | io_emit (message_new m) :: _ =>
          if String.eqb (user_id u) c then m :: left_messages c es'
          else left_messages c es'
      | _ => left_messages c es'
      end
  | _ :: es' => left_messages c es'
  end.




(** A clock that never goes backwards. *)
Definition never_backwards (clk : nat → Z) : Prop :=
  ∀ i j, (i ≤ j)%nat → clk i ≤ clk j.

(** A millisecond clock in an ordinary run: two consecutive readings fall in
    the same millisecond, the next two in the next one. *)
Definition millisecond_clock : nat → Z :=
  λ n, 1700000000000 + Z.of_nat (n / 2).

(** The same chat on the millisecond clock. *)
Definition alice_said_hi_ms : World :=
  run [("A", req_user_join "alice"); ("A", req_message_send "hi")]
      (init millisecond_clock).

(** The ids handed back by [room:create] so far are "room-" followed by
    clock readings already taken, later ids carrying later readings. *)
Definition created_ids_from_clock (w : World) : Prop :=
  ∃ cidxs : list nat,
    created_room_ids (effects w)
    = (λ i, "room-" +:+ toString (clock w i)) <$> cidxs
    ∧ StronglySorted lt cidxs
    ∧ Forall (λ i, (i < reads w)%nat) cidxs.

(** The keys of the directory are "general" and the ids handed back by
    [room:create]. *)
Definition directory_keys (w : World) : Prop :=
  ∀ k, k ∈ JsMap.keys (rooms w)
       ↔ k = "general" ∨ k ∈ created_room_ids (effects w).

(** ** Strings *)

Lemma trimStart_split s :
  ∃ l, s = l +:+ trimStart s ∧ whitespace_only l = true
       ∧ starts_with_whitespace (trimStart s) = false.
Proof.
  induction s as [|c s IH]; simpl.
  - by exists "".
  - destruct (isWhiteSpace c) eqn:Hc.
    + destruct IH as (l & Hs & Hl & Hst).
      exists (String c l). simpl. rewrite Hc, Hl.
      split; [|done]. by rewrite Hs at 1.
    + exists "". simpl. by rewrite Hc.
Qed.

Lemma trimEnd_split s :
  ∃ r, s = trimEnd s +:+ r ∧ whitespace_only r = true
       ∧ ends_with_whitespace (trimEnd s) = false.
Proof.
  induction s as [|c s IH]; simpl.
  - by exists "".
  - destruct IH as (r & Hs & Hr & Hend).
    destruct (trimEnd s) as [|d t] eqn:Ht.
    + destruct (isWhiteSpace c) eqn:Hc.
      * exists (String c r). simpl in *. by rewrite Hc, Hr, Hs.
      * exists r. simpl in *. by rewrite Hc, Hs.
    + exists r. split; [|done]. by rewrite Hs at 1.
Qed.

Lemma trimEnd_keeps_start s :
  starts_with_whitespace s = false → starts_with_whitespace (trimEnd s) = false.
Proof.
  destruct s as [|c s]; simpl; [done|]. intros Hc.
  destruct (trimEnd s); simpl; by rewrite ?Hc.
Qed.

Lemma trim_stripped s : stripped s (trim s).
Proof.
  unfold stripped, trim.
  destruct (trimStart_split s) as (l & Hs & Hl & Hst).
  destruct (trimEnd_split (trimStart s)) as (r & Hs' & Hr & Hend).
  exists l, r. split; [|by auto using trimEnd_keeps_start].
  by rewrite <- Hs', <- Hs.
Qed.

Lemma trimEnd_whitespace_only s : whitespace_only s = true → trimEnd s = "".
Proof.
  induction s as [|c s IH]; simpl; [done|].
  intros [Hc Hs]%andb_prop. by rewrite IH, Hc.
Qed.

Lemma trimEnd_empty s :
  starts_with_whitespace s = false → trimEnd s = "" → s = "".
Proof.
  destruct s as [|c s]; simpl; [done|]. intros Hc.
  destruct (trimEnd s); [by rewrite Hc | done].
Qed.

Lemma trimStart_whitespace_only s :
  whitespace_only s = true ↔ trimStart s = "".
Proof.
  induction s as [|c s IH]; simpl; [done|].
  destruct (isWhiteSpace c); simpl; [done|]. split; intros; discriminate.
Qed.

(** The handlers' test [trim s = ""] is the specification's "empty or
    whitespace-only". *)
Lemma trim_empty_iff s : trim s = "" ↔ whitespace_only s = true.
Proof.
  unfold trim. rewrite trimStart_whitespace_only. split.
  - apply trimEnd_empty. by destruct (trimStart_split s) as (? & ? & ? & ?).
  - by intros ->.
Qed.

Lemma trim_nonempty_iff s : trim s ≠ "" ↔ whitespace_only s = false.
Proof. rewrite trim_empty_iff. by destruct (whitespace_only s). Qed.

(** The guard [!s || s.trim().length === 0] of the join and send handlers. *)
Lemma empty_guard s :
  falsy s || (String.length (trim s) =? 0)%nat = whitespace_only s.
Proof.
  destruct (whitespace_only s) eqn:Hs.
  - apply trim_empty_iff in Hs. rewrite Hs. apply orb_true_r.
  - apply trim_nonempty_iff in Hs.
    destruct s as [|c s]; [done|]. simpl falsy.
    by destruct (trim (String c s)).
Qed.

Lemma toString_inj a b : toString a = toString b → a = b.
Proof. unfold toString. apply (inj pretty). Qed.

(** ** Maps and arrays *)

Lemma JsMap_get_set_eq {V} k (v : V) m : JsMap.get k (JsMap.set k v m) = Some v.
Proof.
  induction m as [|[k' v'] m IH]; simpl.
  - by rewrite String.eqb_refl.
  - destruct (String.eqb k' k) eqn:E; simpl; by rewrite E.
Qed.

Lemma JsMap_keys_set {V} k (v : V) m k' :
  k' ∈ JsMap.keys (JsMap.set k v m) ↔ k' = k ∨ k' ∈ JsMap.keys m.
Proof.
  unfold JsMap.keys. induction m as [|[k1 v1] m IH]; simpl.
  - rewrite list_elem_of_singleton, elem_of_nil. naive_solver.
  - destruct (String.eqb k1 k) eqn:E; simpl; rewrite !elem_of_cons.
    + apply String.eqb_eq in E as ->. naive_solver.
    + rewrite IH. naive_solver.
Qed.

Lemma JsMap_set_fresh {V} k (v : V) m :
  k ∉ JsMap.keys m → JsMap.set k v m = m ++ [(k, v)].
Proof.
  unfold JsMap.keys. induction m as [|[k1 v1] m IH]; simpl; [done|].
  rewrite not_elem_of_cons. intros [Hk1 Hk].
  destruct (String.eqb_spec k1 k) as [->|_]; [done|].
  f_equal. by apply IH.
Qed.

Lemma JsMap_values_set {V} k (v : V) m x :
  x ∈ JsMap.values (JsMap.set k v m) → x = v ∨ x ∈ JsMap.values m.
Proof.
  unfold JsMap.values. induction m as [|[k1 v1] m IH]; simpl.
  - rewrite list_elem_of_singleton. naive_solver.
  - destruct (String.eqb k1 k); simpl; rewrite !elem_of_cons; naive_solver.
Qed.

Lemma JsMap_get_values {V} k (v : V) m :
  JsMap.get k m = Some v → v ∈ JsMap.values m.
Proof.
  unfold JsMap.values. induction m as [|[k1 v1] m IH]; simpl; [done|].
  rewrite elem_of_cons. destruct (String.eqb k1 k); naive_solver.
Qed.

Lemma JsMap_get_keys {V} k (m : JsMap.t V) :
  k ∈ JsMap.keys m ↔ is_Some (JsMap.get k m).
Proof.
  unfold JsMap.keys. induction m as [|[k1 v1] m IH]; simpl.
  - rewrite elem_of_nil. split; [done|]. by intros [? ?].
  - rewrite elem_of_cons. destruct (String.eqb_spec k1 k) as [->|Hne].
    + split; eauto.
    + rewrite <- IH. naive_solver.
Qed.

Lemma JsMap_keys_delete {V} k (m : JsMap.t V) k' :
  k' ∈ JsMap.keys (JsMap.delete k m) ↔ k' ≠ k ∧ k' ∈ JsMap.keys m.
Proof.
  unfold JsMap.keys. induction m as [|[k1 v1] m IH]; simpl.
  - rewrite elem_of_nil. naive_solver.
  - destruct (String.eqb_spec k1 k) as [->|Hne]; simpl; rewrite !elem_of_cons.
    + rewrite IH. naive_solver.
    + rewrite IH. naive_solver.
Qed.

Lemma JsMap_delete_absent {V} k (m : JsMap.t V) :
  k ∉ JsMap.keys m → JsMap.delete k m = m.
Proof.
  unfold JsMap.keys. induction m as [|[k1 v1] m IH]; simpl; [done|].
  rewrite not_elem_of_cons. intros [Hk1 Hk].
  destruct (String.eqb_spec k1 k) as [->|_]; [done|].
  f_equal. by apply IH.
Qed.

Lemma JsMap_delete_delete {V} k (m : JsMap.t V) :
  JsMap.delete k (JsMap.delete k m) = JsMap.delete k m.
Proof. apply JsMap_delete_absent. rewrite JsMap_keys_delete. naive_solver. Qed.

Lemma JsMap_values_forEach {V} (f : V → V) m :
  JsMap.values (JsMap.forEach f m) = f <$> JsMap.values m.
Proof.
  unfold JsMap.values, JsMap.forEach. rewrite <- !list_fmap_compose.
  by apply list_fmap_ext.
Qed.

Lemma JsMap_keys_forEach {V} (f : V → V) m :
  JsMap.keys (JsMap.forEach f m) = JsMap.keys m.
Proof.
  unfold JsMap.keys, JsMap.forEach. rewrite <- !list_fmap_compose.
  by apply list_fmap_ext.
Qed.

Lemma JsMap_forEach_id {V} (f : V → V) m :
  (∀ v, v ∈ JsMap.values m → f v = v) → JsMap.forEach f m = m.
Proof.
  unfold JsMap.values, JsMap.forEach.
  induction m as [|[k1 v1] m IH]; simpl; [done|].
  intros Hf. rewrite Hf by apply list_elem_of_here. f_equal.
  apply IH. intros v Hv. apply Hf. by apply list_elem_of_further.
Qed.

Lemma tail_length {A} n (l : list A) :
  length (tail n l) = (n `min` length l)%nat.
Proof. unfold tail. rewrite length_drop. lia. Qed.

Lemma tail_suffix {A} n (l : list A) :
  take (length l - n)%nat l ++ tail n l = l.
Proof. apply take_drop. Qed.

Lemma tail_all {A} n (l : list A) : (length l ≤ n)%nat → tail n l = l.
Proof. unfold tail. intros. by replace (length l - n)%nat with 0%nat by lia. Qed.

(** [l.slice(-n)] is [tail n] for a positive [n] ... *)
Lemma slice_neg_pos {A} (n : Z) (l : list A) :
  0 < n → slice (- n) l = tail (Z.to_nat n) l.
Proof.
  intros Hn. unfold slice, tail.
  destruct (Z.ltb_spec (- n) 0); [|lia]. f_equal. lia.
Qed.

(** ... and the whole array for [n = 0], where [-0] is no negative index. *)
Lemma slice_neg_zero {A} (l : list A) : slice (- 0) l = l.
Proof. unfold slice. simpl. by replace (Z.to_nat _) with 0%nat by lia. Qed.

(** ** The handlers in closed form, one lemma per path *)

Ltac run_handler :=
  unfold exec, user_join, message_send, message_getHistory, room_create,
    room_list, typing_start, typing_stop, disconnect, try_catch, push_message,
    send, modify, read, new_Date, Date_now, throw, mbind, handler_bind, mret,
    handler_ret; simpl.

Ltac open_world w :=
  let us := fresh "us" in let ms := fresh "ms" in let rs := fresh "rs" in
  let sd := fresh "sd" in let clk := fresh "clk" in let rd := fresh "rd" in
  let eff := fresh "eff" in
  destruct w as [us ms rs sd clk rd eff]; simpl in *.

Lemma exec_user_join_empty w sid username :
  whitespace_only username = true →
  exec (user_join sid username) w =
  with_effects
    (effects w ++ [callback sid (join_ack false (Some "Username cannot be empty"))]) w.
Proof. intros Hn. open_world w. run_handler. by rewrite empty_guard, Hn. Qed.

Lemma exec_user_join_taken w sid username v :
  whitespace_only username = false →
  List.find (λ u, same_name (user_username u) username) (JsMap.values (users w))
    = Some v →
  exec (user_join sid username) w =
  with_effects
    (effects w ++ [callback sid (join_ack false (Some "Username already taken"))]) w.
Proof.
  intros Hn Hf. open_world w. run_handler. rewrite empty_guard, Hn. simpl.
  unfold same_name in Hf. by rewrite Hf.
Qed.

Lemma exec_user_join_ok w sid username r :
  whitespace_only username = false →
  List.find (λ u, same_name (user_username u) username) (JsMap.values (users w))
    = None →
  JsMap.get "general" (rooms w) = Some r →
  let user := mkUser sid (trim username) (clock w (reads w)) in
  let us' := JsMap.set sid user (users w) in
  let systemMessage :=
    mkMessage (toString (clock w (S (reads w)))) "system" "System"
              (username +:+ " joined the chat") (clock w (S (S (reads w))))
              system in
  exec (user_join sid username) w =
  mkWorld us' (messages w ++ [systemMessage])
    (JsMap.set "general" (set_room_users (λ l, l ++ [user]) r) (rooms w))
    (<[sid := user]> (socket_data w)) (clock w) (S (S (S (reads w))))
    (effects w ++
       [socket_join sid "general";
        socket_broadcast_emit sid (user_joined user);
        socket_emit sid (users_list (JsMap.values us'));
        socket_emit sid (message_history (slice (-50) (messages w)));
        io_emit (message_new systemMessage);
        callback sid (join_ack true None)]).
Proof.
  intros Hn Hf Hg. open_world w. run_handler. rewrite empty_guard, Hn. simpl.
  unfold same_name in Hf. rewrite Hf. simpl. rewrite Hg. simpl.
  by rewrite <- !app_assoc.
Qed.

(** Without a default room the handler throws after it has registered the
    user; the [catch] block reports the failure. *)
Lemma exec_user_join_no_general w sid username :
  whitespace_only username = false →
  List.find (λ u, same_name (user_username u) username) (JsMap.values (users w))
    = None →
  JsMap.get "general" (rooms w) = None →
  let user := mkUser sid (trim username) (clock w (reads w)) in
  exec (user_join sid username) w =
  mkWorld (JsMap.set sid user (users w)) (messages w) (rooms w)
    (<[sid := user]> (socket_data w)) (clock w) (S (reads w))
    (effects w ++
       [socket_join sid "general";
        callback sid (join_ack false (Some "Internal server error"))]).
Proof.
  intros Hn Hf Hg. open_world w. run_handler. rewrite empty_guard, Hn. simpl.
  unfold same_name in Hf. rewrite Hf. simpl. rewrite Hg. simpl.
  by rewrite <- !app_assoc.
Qed.

Lemma exec_message_send_anonymous w sid content :
  socket_data w !! sid = None →
  exec (message_send sid content) w =
  with_effects
    (effects w ++ [callback sid (send_ack false);
                   socket_emit sid (error "You must join first")]) w.
Proof.
  intros Hu. open_world w. run_handler. rewrite Hu. simpl.
  by rewrite <- !app_assoc.
Qed.

Lemma exec_message_send_empty w sid u content :
  socket_data w !! sid = Some u →
  whitespace_only content = true →
  exec (message_send sid content) w =
  with_effects (effects w ++ [callback sid (send_ack false)]) w.
Proof.
  intros Hu Hn. open_world w. run_handler. rewrite Hu. simpl.
  by rewrite empty_guard, Hn.
Qed.

Lemma exec_message_send_ok w sid u content :
  socket_data w !! sid = Some u →
  whitespace_only content = false →
  let message :=
    mkMessage (toString (clock w (reads w))) (user_id u) (user_username u)
              (trim content) (clock w (S (reads w))) text in
  exec (message_send sid content) w =
  mkWorld (users w) (messages w ++ [message]) (rooms w) (socket_data w)
    (clock w) (S (S (reads w)))
    (effects w ++ [io_emit (message_new message); callback sid (send_ack true)]).
Proof.
  intros Hu Hn. open_world w. run_handler. rewrite Hu. simpl.
  rewrite empty_guard, Hn. simpl. by rewrite <- !app_assoc.
Qed.

Lemma exec_message_getHistory w sid limit :
  exec (message_getHistory sid limit) w =
  with_effects
    (effects w ++
       [socket_emit sid (message_history (slice (- default 50 limit) (messages w)))])
    w.
Proof. by open_world w. Qed.

Lemma exec_room_create_anonymous w sid name :
  socket_data w !! sid = None →
  exec (room_create sid name) w =
  with_effects (effects w ++ [callback sid (create_ack None)]) w.
Proof. intros Hu. open_world w. run_handler. by rewrite Hu. Qed.

Lemma exec_room_create_ok w sid u name :
  socket_data w !! sid = Some u →
  let room :=
    mkRoom ("room-" +:+ toString (clock w (reads w))) (trim name) []
           (clock w (S (reads w))) in
  exec (room_create sid name) w =
  mkWorld (users w) (messages w) (JsMap.set (room_id room) room (rooms w))
    (socket_data w) (clock w) (S (S (reads w)))
    (effects w ++ [io_emit (room_created room);
                   callback sid (create_ack (Some room))]).
Proof.
  intros Hu. open_world w. run_handler. rewrite Hu. simpl.
  by rewrite <- !app_assoc.
Qed.

Lemma exec_room_list w sid :
  exec (room_list sid) w =
  with_effects
    (effects w ++ [socket_emit sid (rooms_list (JsMap.values (rooms w)))]) w.
Proof. by open_world w. Qed.

Lemma exec_typing_start_joined w sid u :
  socket_data w !! sid = Some u →
  exec (typing_start sid) w =
  with_effects
    (effects w ++ [socket_broadcast_emit sid
                     (notification (user_username u +:+ " is typing..."))]) w.
Proof. intros Hu. open_world w. run_handler. by rewrite Hu. Qed.

Lemma exec_typing_start_anonymous w sid :
  socket_data w !! sid = None → exec (typing_start sid) w = w.
Proof. intros Hu. open_world w. run_handler. by rewrite Hu. Qed.

Lemma exec_typing_stop w sid : exec (typing_stop sid) w = w.
Proof. by open_world w. Qed.

Lemma exec_disconnect_anonymous w sid :
  socket_data w !! sid = None → exec (disconnect sid) w = w.
Proof. intros Hu. open_world w. run_handler. by rewrite Hu. Qed.

Lemma exec_disconnect_joined w sid u :
  socket_data w !! sid = Some u →
  let systemMessage :=
    mkMessage (toString (clock w (reads w))) "system" "System"
              (user_username u +:+ " left the chat") (clock w (S (reads w)))
              system in
  exec (disconnect sid) w =
  mkWorld (JsMap.delete sid (users w)) (messages w ++ [systemMessage])
    (JsMap.forEach (set_room_users (filter (λ v, user_id v ≠ sid))) (rooms w))
    (socket_data w) (clock w) (S (S (reads w)))
    (effects w ++ [socket_broadcast_emit sid (user_left u);
                   io_emit (message_new systemMessage)]).
Proof.
  intros Hu. open_world w. run_handler. rewrite Hu. simpl.
  by rewrite <- !app_assoc.
Qed.

(** ** Traces *)

Lemma run_snoc evs ev w : run (evs ++ [ev]) w = step (run evs w) ev.
Proof. unfold run. by rewrite foldl_app. Qed.

Lemma run_ind (P : World → Prop) w0 :
  P w0 →
  (∀ w sid r, P w → P (exec (handle sid r) w)) →
  ∀ evs, P (run evs w0).
Proof.
  intros H0 Hstep evs. induction evs as [|[sid r] evs IH] using rev_ind; [done|].
  rewrite run_snoc. by apply Hstep.
Qed.

Ltac by_exec lem :=
  let H := fresh "Hexec" in
  pose proof lem as H; cbv zeta in H; rewrite H; clear H.

Ltac handler_cases w sid r :=
  destruct r as [username|content|limit|name| | | | ]; simpl handle;
  [ destruct (whitespace_only username) eqn:?;
    [ by_exec (exec_user_join_empty w sid username ltac:(assumption))
    | destruct (List.find (λ u, same_name (user_username u) username)
                          (JsMap.values (users w))) eqn:?;
      [ by_exec (exec_user_join_taken w sid username _ ltac:(assumption) ltac:(eassumption))
      | destruct (JsMap.get "general" (rooms w)) eqn:?;
        [ by_exec (exec_user_join_ok w sid username _ ltac:(assumption) ltac:(assumption) ltac:(eassumption))
        | by_exec (exec_user_join_no_general w sid username ltac:(assumption) ltac:(assumption) ltac:(assumption)) ] ] ]
  | destruct (socket_data w !! sid) eqn:?;
    [ destruct (whitespace_only content) eqn:?;
      [ by_exec (exec_message_send_empty w sid _ content ltac:(eassumption) ltac:(assumption))
      | by_exec (exec_message_send_ok w sid _ content ltac:(eassumption) ltac:(assumption)) ]
    | by_exec (exec_message_send_anonymous w sid content ltac:(assumption)) ]
  | by_exec (exec_message_getHistory w sid limit)
  | destruct (socket_data w !! sid) eqn:?;
    [ by_exec (exec_room_create_ok w sid _ name ltac:(eassumption))
    | by_exec (exec_room_create_anonymous w sid name ltac:(assumption)) ]
  | by_exec (exec_room_list w sid)
  | destruct (socket_data w !! sid) eqn:?;
    [ by_exec (exec_typing_start_joined w sid _ ltac:(eassumption))
    | by_exec (exec_typing_start_anonymous w sid ltac:(assumption)) ]
  | by_exec (exec_typing_stop w sid)
  | destruct (socket_data w !! sid) eqn:?;
    [ by_exec (exec_disconnect_joined w sid _ ltac:(eassumption))
    | by_exec (exec_disconnect_anonymous w sid ltac:(assumption)) ] ].

Lemma JsMap_get_set_ne {V} k k' (v : V) m :
  k ≠ k' → JsMap.get k' (JsMap.set k v m) = JsMap.get k' m.
Proof.
  intros Hne. induction m as [|[k1 v1] m IH]; simpl.
  - by destruct (String.eqb_spec k k').
  - destruct (String.eqb_spec k1 k) as [->|?]; simpl.
    + by destruct (String.eqb_spec k k').
    + by rewrite IH.
Qed.

Lemma JsMap_get_forEach {V} (f : V → V) k m :
  JsMap.get k (JsMap.forEach f m) = f <$> JsMap.get k m.
Proof.
  induction m as [|[k1 v1] m IH]; simpl; [done|].
  by destruct (String.eqb k1 k).
Qed.

(** ** Invariants of the reachable worlds *)

Lemma clock_step w sid r : clock (exec (handle sid r) w) = clock w.
Proof. handler_cases w sid r; by destruct w. Qed.

Lemma reads_step w sid r : (reads w ≤ reads (exec (handle sid r) w))%nat.
Proof. handler_cases w sid r; destruct w; simpl; lia. Qed.

Lemma clock_run clk evs : clock (run evs (init clk)) = clk.
Proof.
  apply (run_ind (λ w, clock w = clk)); [done|].
  intros w sid r <-. apply clock_step.
Qed.

Lemma socket_users_own_id_step w sid r :
  socket_users_own_id w → socket_users_own_id (exec (handle sid r) w).
Proof.
  unfold socket_users_own_id. intros Hw.
  handler_cases w sid r; destruct w; simpl in *; try done;
    intros sid' u' [[<- <-]|[_ ?]]%lookup_insert_Some; eauto.
Qed.

Lemma reachable_socket_users_own_id w : reachable w → socket_users_own_id w.
Proof.
  intros (clk & evs & ->). apply run_ind; [done|].
  intros. by apply socket_users_own_id_step.
Qed.

(** The default room is never removed or replaced by another key. *)
Lemma general_room_step w sid r :
  is_Some (JsMap.get "general" (rooms w)) →
  is_Some (JsMap.get "general" (rooms (exec (handle sid r) w))).
Proof.
  intros Hw. handler_cases w sid r; destruct w; simpl in *; try done.
  - by rewrite JsMap_get_set_eq.
  - by rewrite JsMap_get_set_ne.
  - rewrite JsMap_get_forEach. by apply fmap_is_Some.
Qed.

Lemma reachable_general_room w :
  reachable w → is_Some (JsMap.get "general" (rooms w)).
Proof.
  intros (clk & evs & ->). apply run_ind; [by eexists|].
  intros. by apply general_room_step.
Qed.

Lemma member_of_filter c sid r :
  member_of c (set_room_users (filter (λ v, user_id v ≠ sid)) r) ↔
  c ≠ sid ∧ member_of c r.
Proof.
  unfold member_of. destruct r as [i n us t]. simpl.
  rewrite !list_elem_of_fmap. setoid_rewrite list_elem_of_filter. naive_solver.
Qed.

Lemma I4_step w sid r : I4 w → I4 (exec (handle sid r) w).
Proof.
  unfold I4. intros Hw.
  handler_cases w sid r; destruct w; simpl in *; try done.
  - (* join *)
    intros r' c [->|Hr']%JsMap_values_set; rewrite JsMap_keys_set.
    + unfold member_of. simpl. rewrite fmap_app, elem_of_app.
      intros [Hc|Hc%list_elem_of_singleton]; [|by left].
      right. eapply Hw; [|done]. by eapply JsMap_get_values.
    + intros Hc. right. by eapply Hw.
  - (* join without a default room *)
    intros r' c Hr' Hc. rewrite JsMap_keys_set. right. by eapply Hw.
  - (* room:create *)
    intros r' c [->|Hr']%JsMap_values_set; [|by eapply Hw].
    unfold member_of. simpl. by rewrite elem_of_nil.
  - (* disconnect *)
    intros r' c. rewrite JsMap_values_forEach, list_elem_of_fmap.
    intros (r0 & -> & Hr0) [Hne Hc]%member_of_filter.
    rewrite JsMap_keys_delete. split; [done|]. by eapply Hw.
Qed.

Lemma reachable_I4 w : reachable w → I4 w.
Proof.
  intros (clk & evs & ->). apply run_ind.
  - intros r c. unfold init, JsMap.values. simpl.
    rewrite list_elem_of_singleton. intros ->. unfold member_of. simpl.
    by rewrite elem_of_nil.
  - intros. by apply I4_step.
Qed.

Lemma emitted_app {A} (m : Handler A) w new :
  effects (exec m w) = effects w ++ new → emitted m w = new.
Proof. unfold emitted. intros ->. by rewrite drop_app_length. Qed.

(** ** Sending a message *)

(** C5: a send from a joined connection whose content is empty or
    whitespace-only answers the sender with failure and does nothing else: the
    log, the registry, the rooms and the socket data are unchanged, and the
    acknowledgement is the only thing sent (no broadcast). *)
Theorem send_blank_content_rejected w sid u content :
  socket_data w !! sid = Some u →
  whitespace_only content = true →
  let w' := exec (message_send sid content) w in
  emitted (message_send sid content) w = [callback sid (send_ack false)]
  ∧ List.filter is_broadcast (emitted (message_send sid content) w) = []
  ∧ messages w' = messages w
  ∧ users w' = users w
  ∧ rooms w' = rooms w
  ∧ socket_data w' = socket_data w.
Proof.
  intros Hu Hn w'.
  assert (Hw : w' = with_effects (effects w ++ [callback sid (send_ack false)]) w)
    by by eapply exec_message_send_empty.
  assert (He : emitted (message_send sid content) w
               = [callback sid (send_ack false)]).
  { apply emitted_app. fold w'. by rewrite Hw. }
  rewrite He, Hw. by destruct w.
Qed.

Lemma send_blank_content_rejected_witness :
  socket_data alice_said_hi !! "A" = Some alice
  ∧ whitespace_only "   " = true
  ∧ let w' := exec (message_send "A" "   ") alice_said_hi in
    emitted (message_send "A" "   ") alice_said_hi
      = [callback "A" (send_ack false)]
    ∧ List.filter is_broadcast (emitted (message_send "A" "   ") alice_said_hi) = []
    ∧ messages w' = messages alice_said_hi
    ∧ users w' = users alice_said_hi
    ∧ rooms w' = rooms alice_said_hi
    ∧ socket_data w' = socket_data alice_said_hi.
Proof.
  split; [by vm_compute|]. split; [reflexivity|].
  apply (send_blank_content_rejected alice_said_hi "A" alice "   ");
    by vm_compute.
Defined.

(** C10: a successful send (joined connection, content not blank) appends
    one message to the log and broadcasts that same message to everybody; its
    content is the input without its leading and trailing whitespace, its
    author fields are the id and username of the sender's participant record
    (the connection's own id in every reachable world) and its kind is text. *)
Theorem send_appends_trimmed_text_message w sid u content :
  socket_data w !! sid = Some u →
  whitespace_only content = false →
  ∃ m, messages (exec (message_send sid content) w) = messages w ++ [m]
     ∧ emitted (message_send sid content) w
       = [io_emit (message_new m); callback sid (send_ack true)]
     ∧ msg_content m = trim content
     ∧ stripped content (msg_content m)
     ∧ msg_userId m = user_id u
     ∧ msg_username m = user_username u
     ∧ msg_type m = text
     ∧ (reachable w → msg_userId m = sid).
Proof.
  intros Hu Hn.
  pose proof (exec_message_send_ok w sid u content Hu Hn) as Hw.
  cbv zeta in Hw. eexists. split; [by rewrite Hw|].
  split; [apply emitted_app; by rewrite Hw|]. simpl.
  repeat split; auto using trim_stripped.
  intros Hr. by apply (reachable_socket_users_own_id w Hr).
Qed.

Lemma send_appends_trimmed_text_message_witness :
  socket_data alice_said_hi !! "A" = Some alice
  ∧ whitespace_only "  see you " = false
  ∧ ∃ m, messages (exec (message_send "A" "  see you ") alice_said_hi)
         = messages alice_said_hi ++ [m]
     ∧ emitted (message_send "A" "  see you ") alice_said_hi
       = [io_emit (message_new m); callback "A" (send_ack true)]
     ∧ msg_content m = trim "  see you "
     ∧ stripped "  see you " (msg_content m)
     ∧ msg_userId m = user_id alice
     ∧ msg_username m = user_username alice
     ∧ msg_type m = text
     ∧ (reachable alice_said_hi → msg_userId m = "A").
Proof.
  split; [by vm_compute|]. split; [reflexivity|].
  apply (send_appends_trimmed_text_message alice_said_hi "A" alice "  see you ");
    by vm_compute.
Defined.

(** An anonymous connection cannot send: the acknowledgement is a failure,
    followed by an error event to the sender alone. *)
Lemma send_requires_join w sid content :
  socket_data w !! sid = None →
  emitted (message_send sid content) w
  = [callback sid (send_ack false); socket_emit sid (error "You must join first")]
  ∧ messages (exec (message_send sid content) w) = messages w.
Proof.
  intros Hu. pose proof (exec_message_send_anonymous w sid content Hu) as Hw.
  split; [apply emitted_app|]; rewrite Hw; by destruct w.
Qed.

(** ** History *)

Lemma emitted_getHistory w sid limit :
  emitted (message_getHistory sid limit) w
  = [socket_emit sid (message_history (slice (- default 50 limit) (messages w)))].
Proof. apply emitted_app. rewrite exec_message_getHistory. by destruct w. Qed.

(** For a positive limit the requester gets [tail n]: the last [min n len]
    messages, oldest first, and nothing else is sent. *)
Lemma getHistory_positive w sid n :
  0 < n →
  emitted (message_getHistory sid (Some n)) w
  = [socket_emit sid (message_history (tail (Z.to_nat n) (messages w)))].
Proof. intros Hn. rewrite emitted_getHistory. simpl. by rewrite slice_neg_pos. Qed.

(** An omitted limit is 50. *)
Lemma getHistory_default w sid :
  emitted (message_getHistory sid None) w
  = [socket_emit sid (message_history (tail 50 (messages w)))].
Proof. rewrite emitted_getHistory. simpl. by rewrite (slice_neg_pos 50). Qed.

Lemma getHistory_zero w sid :
  emitted (message_getHistory sid (Some 0)) w
  = [socket_emit sid (message_history (messages w))].
Proof. rewrite emitted_getHistory. simpl. by rewrite (slice_neg_zero (messages w)). Qed.

(** C4: [getHistory(0)] on a log of two messages.  [tail 0] is empty, but
    [messages.slice(-0)] is [messages.slice(0)]: the requester is sent the
    whole log. *)
Theorem getHistory_zero_sends_whole_log :
  length (messages alice_said_hi) = 2%nat
  ∧ tail (Z.to_nat 0) (messages alice_said_hi) = []
  ∧ emitted (message_getHistory "A" (Some 0)) alice_said_hi
    = [socket_emit "A" (message_history (messages alice_said_hi))].
Proof. split; [by vm_compute|]. split; [by vm_compute|]. apply getHistory_zero. Qed.

(** ** Joining *)

Lemma find_existsb {A} (f : A → bool) l :
  existsb f l = match List.find f l with Some _ => true | None => false end.
Proof. induction l as [|x l IH]; simpl; [done|]. by destruct (f x). Qed.

Lemma name_taken_find w username :
  name_taken w username = false →
  List.find (λ u, same_name (user_username u) username) (JsMap.values (users w))
  = None.
Proof. unfold name_taken. rewrite find_existsb. by case_match. Qed.

Lemma name_taken_find_Some w username :
  name_taken w username = true →
  ∃ v, List.find (λ u, same_name (user_username u) username)
                 (JsMap.values (users w)) = Some v.
Proof. unfold name_taken. rewrite find_existsb. case_match; [eauto|done]. Qed.

Lemma emitted_join_empty w sid username :
  whitespace_only username = true →
  emitted (user_join sid username) w
  = [callback sid (join_ack false (Some "Username cannot be empty"))]
  ∧ users (exec (user_join sid username) w) = users w.
Proof.
  intros Hn. pose proof (exec_user_join_empty w sid username Hn) as Hw.
  split; [apply emitted_app|]; rewrite Hw; by destruct w.
Qed.

(** A requested name that equals a registered one up to case is refused and
    the registry stays as it was. *)
Lemma emitted_join_taken w sid username :
  whitespace_only username = false →
  name_taken w username = true →
  emitted (user_join sid username) w
  = [callback sid (join_ack false (Some "Username already taken"))]
  ∧ users (exec (user_join sid username) w) = users w.
Proof.
  intros Hn [v Hv]%name_taken_find_Some.
  pose proof (exec_user_join_taken w sid username v Hn Hv) as Hw.
  split; [apply emitted_app|]; rewrite Hw; by destruct w.
Qed.

Lemma emitted_join_ok w sid username r :
  whitespace_only username = false →
  name_taken w username = false →
  JsMap.get "general" (rooms w) = Some r →
  let user := mkUser sid (trim username) (clock w (reads w)) in
  let systemMessage :=
    mkMessage (toString (clock w (S (reads w)))) "system" "System"
              (username +:+ " joined the chat") (clock w (S (S (reads w))))
              system in
  emitted (user_join sid username) w
  = [socket_join sid "general";
     socket_broadcast_emit sid (user_joined user);
     socket_emit sid (users_list (JsMap.values (JsMap.set sid user (users w))));
     socket_emit sid (message_history (tail 50 (messages w)));
     io_emit (message_new systemMessage);
     callback sid (join_ack true None)].
Proof.
  intros Hn Hf%name_taken_find Hg.
  pose proof (exec_user_join_ok w sid username r Hn Hf Hg) as Hw.
  cbv zeta in *. apply emitted_app. rewrite Hw. simpl.
  by rewrite (slice_neg_pos 50).
Qed.

(** C3, the claim refuted: connection A has joined as alice, and its second
    join request, as bob, is not rejected. *)
Lemma rejoin_is_not_rejected :
  socket_data alice_said_hi !! "A" = Some alice
  ∧ ¬ join_rejected alice_said_hi "A" "bob".
Proof.
  split; [by vm_compute|]. intros [err Herr]. vm_compute in Herr. discriminate.
Qed.

(** C3, as the code has it: the join handler never looks at the connection's
    state, so a join request on a Joined connection is an ordinary join.  It
    is refused with "Username cannot be empty" for a blank name and with
    "Username already taken" when the name collides with a registered one (the
    connection's own included); otherwise it succeeds and the connection's
    participant record is replaced by one with the new name. *)
Theorem rejoin_is_an_ordinary_join w sid u username r :
  socket_data w !! sid = Some u →
  JsMap.get "general" (rooms w) = Some r →
  let w' := exec (user_join sid username) w in
  let answer := last (emitted (user_join sid username) w) in
  let user := mkUser sid (trim username) (clock w (reads w)) in
  if whitespace_only username then
    answer = Some (callback sid (join_ack false (Some "Username cannot be empty")))
    ∧ users w' = users w
  else if name_taken w username then
    answer = Some (callback sid (join_ack false (Some "Username already taken")))
    ∧ users w' = users w
  else
    answer = Some (callback sid (join_ack true None))
    ∧ JsMap.get sid (users w') = Some user
    ∧ socket_data w' !! sid = Some user.
Proof.
  intros Hu Hg w' answer user. subst w' answer user.
  destruct (whitespace_only username) eqn:Hn.
  { destruct (emitted_join_empty w sid username Hn) as [-> ->]. done. }
  destruct (name_taken w username) eqn:Ht.
  { destruct (emitted_join_taken w sid username Hn Ht) as [-> ->]. done. }
  rewrite (emitted_join_ok w sid username r Hn Ht Hg).
  pose proof (exec_user_join_ok w sid username r Hn (name_taken_find _ _ Ht) Hg)
    as Hw.
  cbv zeta in Hw. rewrite Hw. simpl.
  split; [done|]. split; [apply JsMap_get_set_eq | apply lookup_insert_eq].
Qed.

Lemma rejoin_is_an_ordinary_join_witness :
  socket_data alice_said_hi !! "A" = Some alice
  ∧ JsMap.get "general" (rooms alice_said_hi)
    = Some (mkRoom "general" "General" [alice] 1700000000000)
  ∧ last (emitted (user_join "A" "bob") alice_said_hi)
    = Some (callback "A" (join_ack true None))
  ∧ JsMap.get "A" (users (exec (user_join "A" "bob") alice_said_hi))
    = Some (mkUser "A" "bob" 1700000000006)
  ∧ socket_data (exec (user_join "A" "bob") alice_said_hi) !! "A"
    = Some (mkUser "A" "bob" 1700000000006).
Proof.
  split; [by vm_compute|]. split; [by vm_compute|].
  apply (rejoin_is_an_ordinary_join alice_said_hi "A" alice "bob"
           (mkRoom "general" "General" [alice] 1700000000000));
    by vm_compute.
Defined.

(** C9, the claim refuted: in the very first join, the participant-joined
    broadcast (position 1) is emitted before the snapshot unicast
    (position 2). *)
Lemma join_broadcasts_before_unicasts :
  ¬ unicasts_before_broadcasts "A"
      (emitted (user_join "A" "alice") (init ticking_clock)).
Proof.
  intros H.
  specialize (H 2%nat 1%nat
    (socket_emit "A" (users_list [alice]))
    (socket_broadcast_emit "A" (user_joined alice))).
  vm_compute in H. specialize (H eq_refl eq_refl eq_refl eq_refl).
  by inversion H as [|? H1]; inversion H1 as [|? H2]; inversion H2.
Qed.

(** C9, as the code has it: a successful join emits, in this order, the
    participant-joined broadcast to the others, the snapshot and the last 50
    messages to the requester, and the join message to everybody.  The
    requester is excluded from the first broadcast, so what it receives is
    the snapshot, then the history, then the join message: its unicasts come
    before every broadcast it receives. *)
Theorem join_requester_gets_unicasts_first w sid username r :
  whitespace_only username = false →
  name_taken w username = false →
  JsMap.get "general" (rooms w) = Some r →
  let es := emitted (user_join sid username) w in
  let w' := exec (user_join sid username) w in
  ∃ user joinMessage,
    es = [socket_join sid "general";
          socket_broadcast_emit sid (user_joined user);
          socket_emit sid (users_list (JsMap.values (users w')));
          socket_emit sid (message_history (tail 50 (messages w)));
          io_emit (message_new joinMessage);
          callback sid (join_ack true None)]
    ∧ List.filter (delivered_to sid) es
      = [socket_emit sid (users_list (JsMap.values (users w')));
         socket_emit sid (message_history (tail 50 (messages w)));
         io_emit (message_new joinMessage)]
    ∧ unicasts_before_received_broadcasts sid es.
Proof.
  intros Hn Ht Hg es w'. subst es w'.
  rewrite (emitted_join_ok w sid username r Hn Ht Hg).
  pose proof (exec_user_join_ok w sid username r Hn (name_taken_find _ _ Ht) Hg)
    as Hw.
  cbv zeta in Hw. rewrite Hw. simpl. clear Hw.
  eexists _, _. split; [done|]. split.
  - by rewrite String.eqb_refl.
  - intros i j e1 e2 Hi Hj Hu Hb Hd.
    assert (i < 4)%nat.
    { destruct i as [|[|[|[|[|[|?]]]]]]; simplify_eq/=; lia. }
    assert (4 ≤ j)%nat; [|lia].
    destruct j as [|[|[|[|[|[|?]]]]]]; simplify_eq/=; try lia.
    by rewrite String.eqb_refl in Hd.
Qed.

Lemma join_requester_gets_unicasts_first_witness :
  whitespace_only "bob" = false
  ∧ name_taken alice_said_hi "bob" = false
  ∧ JsMap.get "general" (rooms alice_said_hi)
    = Some (mkRoom "general" "General" [alice] 1700000000000)
  ∧ let es := emitted (user_join "B" "bob") alice_said_hi in
    let w' := exec (user_join "B" "bob") alice_said_hi in
    ∃ user joinMessage,
      es = [socket_join "B" "general";
            socket_broadcast_emit "B" (user_joined user);
            socket_emit "B" (users_list (JsMap.values (users w')));
            socket_emit "B" (message_history (tail 50 (messages alice_said_hi)));
            io_emit (message_new joinMessage);
            callback "B" (join_ack true None)]
      ∧ List.filter (delivered_to "B") es
        = [socket_emit "B" (users_list (JsMap.values (users w')));
           socket_emit "B" (message_history (tail 50 (messages alice_said_hi)));
           io_emit (message_new joinMessage)]
      ∧ unicasts_before_received_broadcasts "B" es.
Proof.
  split; [reflexivity|]. split; [by vm_compute|]. split; [by vm_compute|].
  apply (join_requester_gets_unicasts_first alice_said_hi "B" "bob"
           (mkRoom "general" "General" [alice] 1700000000000));
    by vm_compute.
Defined.

(** ** Leaving *)

(** C7: after the disconnect of a joined connection, no room lists that
    connection as a member, and I4 (every member of every room is
    registered), if it held before, holds again. *)
Theorem disconnect_restores_I4 w sid u :
  socket_data w !! sid = Some u →
  let w' := exec (disconnect sid) w in
  (∀ r, r ∈ JsMap.values (rooms w') → ¬ member_of sid r)
  ∧ (I4 w → I4 w').
Proof.
  intros Hu w'. split.
  - subst w'. rewrite (exec_disconnect_joined w sid u Hu). simpl.
    intros r. rewrite JsMap_values_forEach, list_elem_of_fmap.
    intros (r0 & -> & _) [? _]%member_of_filter. done.
  - apply (I4_step w sid req_disconnect).
Qed.

Lemma disconnect_restores_I4_witness :
  socket_data alice_said_hi !! "A" = Some alice
  ∧ let w' := exec (disconnect "A") alice_said_hi in
    (∀ r, r ∈ JsMap.values (rooms w') → ¬ member_of "A" r)
    ∧ (I4 alice_said_hi → I4 w').
Proof.
  split; [by vm_compute|].
  apply (disconnect_restores_I4 alice_said_hi "A" alice). by vm_compute.
Defined.

(** ** Disconnects, as socket.io reports them *)

Lemma deliver_all_snoc evs ev s :
  deliver_all (evs ++ [ev]) s = deliver (deliver_all evs s) ev.
Proof. unfold deliver_all. by rewrite foldl_app. Qed.














(** Every state socket.io's deliveries lead to is a reachable world. *)
Lemma deliver_all_reachable clk evs : reachable (deliver_all evs (start clk)).1.
Proof.
  induction evs as [|[sid r] evs (clk' & evs' & IH)] using rev_ind.
  - by exists clk, [].
  - rewrite deliver_all_snoc. unfold deliver. simpl. case_decide.
    + by exists clk', evs'.
    + simpl. exists clk', (evs' ++ [(sid, r)]). by rewrite run_snoc, IH.
Qed.

(** alice and bob join; the disconnect of alice is reported twice: the
    others are told once, and the log holds one "alice left the chat". *)
Lemma alice_leaves_reported_twice :
  let s := deliver_all
             [("A", req_user_join "alice"); ("B", req_user_join "bob");
              ("A", req_disconnect); ("A", req_disconnect)]
             (start ticking_clock) in
  count_user_left "A" (effects s.1) = 1%nat
  ∧ msg_content <$> left_messages "A" (effects s.1) = ["alice left the chat"]
  ∧ msg_content <$> messages s.1
    = ["alice joined the chat"; "bob joined the chat"; "alice left the chat"].
Proof. by vm_compute. Qed.

(** ** The message log *)

Lemma log_ids_extend (clk : nat → Z) ms idxs m (rd rd' k : nat) :
  msg_id <$> ms = (λ i, toString (clk i)) <$> idxs →
  StronglySorted lt idxs →
  Forall (λ i, (i < rd)%nat) idxs →
  msg_id m = toString (clk k) →
  (rd ≤ k < rd')%nat →
  ∃ idxs' : list nat,
    msg_id <$> (ms ++ [m]) = (λ i, toString (clk i)) <$> idxs'
    ∧ StronglySorted lt idxs'
    ∧ Forall (λ i, (i < rd')%nat) idxs'.
Proof.
  intros Hids Hs Hb Hm Hk. exists (idxs ++ [k]).
  rewrite !fmap_app, Hids. simpl. rewrite Hm. split; [done|]. split.
  - apply StronglySorted_app. split; [|split; [done|repeat constructor]].
    intros i j Hi ->%list_elem_of_singleton.
    rewrite Forall_forall in Hb. specialize (Hb i Hi). simpl in Hb. lia.
  - apply Forall_app. split.
    + eapply Forall_impl; [done|]. simpl. lia.
    + repeat constructor. lia.
Qed.

Lemma log_ids_step w sid r :
  log_ids_from_clock w → log_ids_from_clock (exec (handle sid r) w).
Proof.
  unfold log_ids_from_clock. intros (idxs & Hids & Hs & Hb).
  handler_cases w sid r; open_world w;
    try (by exists idxs);
    try (exists idxs; split; [done|]; split; [done|];
         eapply Forall_impl; [done|]; simpl; lia).
  - eapply (log_ids_extend _ _ _ _ _ _ (S rd)); eauto; simpl; lia.
  - eapply (log_ids_extend _ _ _ _ _ _ rd); eauto; simpl; lia.
  - eapply (log_ids_extend _ _ _ _ _ _ rd); eauto; simpl; lia.
Qed.

Lemma reachable_log_ids clk evs : log_ids_from_clock (run evs (init clk)).
Proof.
  apply run_ind.
  - exists []. repeat split; constructor.
  - intros. by apply log_ids_step.
Qed.

Lemma messages_step w sid r :
  ∃ new, messages (exec (handle sid r) w) = messages w ++ new
         ∧ (length new ≤ 1)%nat.
Proof.
  handler_cases w sid r; destruct w; simpl.
  all: try (eexists [_]; split; [done|simpl; lia]).
  all: exists []; rewrite app_nil_r; split; [done|simpl; lia].
Qed.

(** C2, the claim refuted: alice joins and says hi within one millisecond;
    the join message and her message get the same id. *)
Lemma same_millisecond_messages_share_id :
  msg_id <$> messages alice_said_hi_frozen = ["1700000000000"; "1700000000000"]
  ∧ ¬ NoDup (msg_id <$> messages alice_said_hi_frozen).
Proof.
  split; [by vm_compute|].
  intros H. vm_compute in H. apply NoDup_cons in H as [Hnin _].
  apply Hnin, list_elem_of_here.
Qed.


Local Instance toString_Inj : Inj (=) (=) toString.
Proof. intros a b. apply toString_inj. Qed.

Lemma sorted_le_NoDup_lt (ts : list Z) :
  StronglySorted Z.le ts → NoDup ts → StronglySorted Z.lt ts.
Proof.
  induction 1 as [|t ts Hts IH Hle]; [constructor|].
  intros [Hnin Hnd]%NoDup_cons. constructor; [by apply IH|].
  rewrite Forall_forall in Hle |- *. intros x Hx.
  specialize (Hle x Hx). assert (t ≠ x) by (by intros ->). lia.
Qed.

Lemma sorted_lt_NoDup (ts : list Z) : StronglySorted Z.lt ts → NoDup ts.
Proof.
  induction 1 as [|t ts Hts IH Hlt]; constructor; [|done].
  intros Hin. rewrite Forall_forall in Hlt. specialize (Hlt t Hin). lia.
Qed.

(** C2, as the code has it: every handler leaves the log as it was or
    appends one message at its end, so the log is in append order; the id of
    a message is the decimal string of the clock reading taken for it, and
    the readings are taken in append order.  Two messages have the same id
    exactly when their readings are equal, so the ids are pairwise distinct
    exactly when the readings are.  With a clock that never goes backwards
    the ids never decrease along the log, and they are strictly increasing
    exactly when they are pairwise distinct. *)
Theorem message_ids_are_clock_readings clk evs ev :
  let w := run evs (init clk) in
  (∃ new, messages (step w ev) = messages w ++ new ∧ (length new ≤ 1)%nat)
  ∧ ∃ idxs : list nat,
      msg_id <$> messages w = (λ i, toString (clk i)) <$> idxs
      ∧ StronglySorted lt idxs
      ∧ (∀ i j m1 m2 a b,
           messages w !! i = Some m1 → messages w !! j = Some m2 →
           idxs !! i = Some a → idxs !! j = Some b →
           (msg_id m1 = msg_id m2 ↔ clk a = clk b))
      ∧ (NoDup (msg_id <$> messages w) ↔ NoDup (clk <$> idxs))
      ∧ (never_backwards clk →
           StronglySorted Z.le (clk <$> idxs)
           ∧ (NoDup (msg_id <$> messages w)
              ↔ StronglySorted Z.lt (clk <$> idxs))).
Proof.
  intros w. split; [destruct ev; apply messages_step|].
  destruct (reachable_log_ids clk evs) as (idxs & Hids & Hs & _).
  fold w in Hids. subst w. rewrite clock_run in Hids.
  set (w := run evs (init clk)) in *.
  assert (Hnd : NoDup (msg_id <$> messages w) ↔ NoDup (clk <$> idxs)).
  { rewrite Hids.
    replace ((λ i, toString (clk i)) <$> idxs) with (toString <$> (clk <$> idxs))
      by by rewrite <- list_fmap_compose.
    apply (NoDup_fmap toString). }
  exists idxs. split; [done|]. split; [done|]. split; [|split; [done|]].
  - intros i j m1 m2 a b Hi Hj Ha Hb.
    assert (Hm1 : msg_id m1 = toString (clk a)).
    { apply (f_equal (λ l, l !! i)) in Hids.
      rewrite !list_lookup_fmap, Hi, Ha in Hids. by injection Hids. }
    assert (Hm2 : msg_id m2 = toString (clk b)).
    { apply (f_equal (λ l, l !! j)) in Hids.
      rewrite !list_lookup_fmap, Hj, Hb in Hids. by injection Hids. }
    rewrite Hm1, Hm2. split; [apply toString_inj|by intros ->].
  - intros Hclk.
    assert (Hle : StronglySorted Z.le (clk <$> idxs)).
    { eapply StronglySorted_fmap; [|done]. intros x y Hxy. apply Hclk. lia. }
    split; [done|]. rewrite Hnd. split.
    + by apply sorted_le_NoDup_lt.
    + apply sorted_lt_NoDup.
Qed.

Lemma millisecond_clock_never_backwards : never_backwards millisecond_clock.
Proof.
  intros i j Hij. unfold millisecond_clock.
  pose proof (Nat.Div0.div_le_mono i j 2 Hij). lia.
Qed.

(** An ordinary run on a millisecond clock: the readings of one handler
    fall in the same millisecond, so the clock does not advance between any
    two readings, and yet the ids in the log are pairwise distinct. *)
Lemma ordinary_run_has_distinct_ids :
  never_backwards millisecond_clock
  ∧ millisecond_clock 2 = millisecond_clock 3
  ∧ msg_id <$> messages alice_said_hi_ms = ["1700000000001"; "1700000000002"]
  ∧ NoDup (msg_id <$> messages alice_said_hi_ms).
Proof.
  split; [apply millisecond_clock_never_backwards|].
  split; [done|]. split; [by vm_compute|].
  replace (msg_id <$> messages alice_said_hi_ms)
    with ["1700000000001"; "1700000000002"] by by vm_compute.
  repeat constructor; rewrite ?elem_of_cons, ?elem_of_nil; naive_solver.
Qed.

(** ** Rooms *)

Lemma created_room_ids_app es es' :
  created_room_ids (es ++ es') = created_room_ids es ++ created_room_ids es'.
Proof.
  induction es as [|e es IH]; simpl; [done|].
  destruct e as [| | |? [| |[?|]]|]; simpl; by rewrite ?IH.
Qed.

Lemma keys_step w sid r k :
  k ∈ JsMap.keys (rooms w) → k ∈ JsMap.keys (rooms (exec (handle sid r) w)).
Proof.
  handler_cases w sid r; open_world w; try done.
  - rewrite JsMap_keys_set. by right.
  - rewrite JsMap_keys_set. by right.
  - by rewrite JsMap_keys_forEach.
Qed.

(** C8, the claim refuted: "lobby" was created in the same millisecond; the
    room handed back for "games" has the id of "lobby", and takes its place
    in the directory. *)
Lemma room_create_same_millisecond_overwrites :
  ∃ r, last (emitted (room_create "A" "games") frozen_lobby)
       = Some (callback "A" (create_ack (Some r)))
     ∧ room_id r ∈ JsMap.keys (rooms frozen_lobby)
     ∧ room_name <$> JsMap.values (rooms frozen_lobby) = ["General"; "lobby"]
     ∧ room_name <$> JsMap.values (rooms (exec (room_create "A" "games") frozen_lobby))
       = ["General"; "games"].
Proof.
  eexists. split; [by vm_compute|]. split; [|by vm_compute].
  vm_compute. apply list_elem_of_further, list_elem_of_here.
Qed.

Lemma JsMap_keys_set_present {V} k (v : V) m :
  k ∈ JsMap.keys m → JsMap.keys (JsMap.set k v m) = JsMap.keys m.
Proof.
  unfold JsMap.keys. induction m as [|[k1 v1] m IH]; simpl.
  - by intros ?%elem_of_nil.
  - destruct (String.eqb_spec k1 k) as [->|Hne]; [done|].
    intros [?|Hk]%elem_of_cons; [congruence|]. simpl. f_equal. by apply IH.
Qed.

Lemma created_ids_extend (clk : nat → Z) ids cidxs (rd rd' k : nat) :
  ids = (λ i, "room-" +:+ toString (clk i)) <$> cidxs →
  StronglySorted lt cidxs →
  Forall (λ i, (i < rd)%nat) cidxs →
  (rd ≤ k < rd')%nat →
  ∃ cidxs' : list nat,
    ids ++ ["room-" +:+ toString (clk k)]
    = (λ i, "room-" +:+ toString (clk i)) <$> cidxs'
    ∧ StronglySorted lt cidxs'
    ∧ Forall (λ i, (i < rd')%nat) cidxs'.
Proof.
  intros -> Hs Hb Hk. exists (cidxs ++ [k]).
  rewrite fmap_app. split; [done|]. split.
  - apply StronglySorted_app. split; [|split; [done|repeat constructor]].
    intros i j Hi ->%list_elem_of_singleton.
    rewrite Forall_forall in Hb. specialize (Hb i Hi). simpl in Hb. lia.
  - apply Forall_app. split.
    + eapply Forall_impl; [done|]. simpl. lia.
    + repeat constructor. lia.
Qed.

Lemma created_ids_step w sid r :
  created_ids_from_clock w → created_ids_from_clock (exec (handle sid r) w).
Proof.
  unfold created_ids_from_clock. intros (cidxs & Hids & Hs & Hb).
  handler_cases w sid r; open_world w;
    rewrite ?created_room_ids_app; simpl; rewrite ?app_nil_r;
    try (by exists cidxs);
    try (exists cidxs; split; [done|]; split; [done|];
         eapply Forall_impl; [done|]; simpl; lia).
  eapply (created_ids_extend _ _ _ rd); eauto; lia.
Qed.

Lemma reachable_created_ids clk evs :
  created_ids_from_clock (run evs (init clk)).
Proof.
  apply run_ind.
  - exists []. repeat split; constructor.
  - intros. by apply created_ids_step.
Qed.

Lemma directory_keys_step w sid r :
  directory_keys w → directory_keys (exec (handle sid r) w).
Proof.
  unfold directory_keys. intros Hw.
  handler_cases w sid r; open_world w;
    rewrite ?created_room_ids_app; simpl; rewrite ?app_nil_r; try done;
    intros k.
  - rewrite JsMap_keys_set, Hw. naive_solver.
  - rewrite JsMap_keys_set, Hw, elem_of_app, list_elem_of_singleton.
    naive_solver.
  - by rewrite JsMap_keys_forEach.
Qed.

Lemma reachable_directory_keys clk evs : directory_keys (run evs (init clk)).
Proof.
  apply run_ind.
  - intros k. unfold init, JsMap.keys. simpl.
    rewrite list_elem_of_singleton, elem_of_nil. naive_solver.
  - intros. by apply directory_keys_step.
Qed.

Local Instance room_id_Inj : Inj (=) (=) (λ t, "room-" +:+ toString t).
Proof. intros a b Hab. injection Hab as Hab. by apply toString_inj. Qed.

(** C8, as the code has it: a [room:create] from a joined connection
    builds the room "room-<clock reading>" with the trimmed name, no members
    and the next clock reading as its creation time, files it under its id,
    broadcasts it and hands it back; every other key of the directory keeps
    its room.  The id is the key of an existing room exactly when an earlier
    [room:create] read the same millisecond for its id: if none did, the
    directory grows by exactly the new room; if one did, the new room takes
    the place of the room under that key.  The ids handed back so far are
    pairwise distinct exactly when the readings taken for them are. *)
Theorem room_create_id_is_clock_reading clk evs sid u name :
  let w := run evs (init clk) in
  socket_data w !! sid = Some u →
  let w' := exec (room_create sid name) w in
  let room :=
    mkRoom ("room-" +:+ toString (clk (reads w))) (trim name) []
           (clk (S (reads w))) in
  emitted (room_create sid name) w
  = [io_emit (room_created room); callback sid (create_ack (Some room))]
  ∧ JsMap.get (room_id room) (rooms w') = Some room
  ∧ (∀ k, k ≠ room_id room → JsMap.get k (rooms w') = JsMap.get k (rooms w))
  ∧ ∃ cidxs : list nat,
      created_room_ids (effects w)
      = (λ i, "room-" +:+ toString (clk i)) <$> cidxs
      ∧ StronglySorted lt cidxs
      ∧ (room_id room ∈ JsMap.keys (rooms w) ↔ clk (reads w) ∈ clk <$> cidxs)
      ∧ ((room_id room ∉ JsMap.keys (rooms w)) →
         rooms w' = rooms w ++ [(room_id room, room)])
      ∧ (room_id room ∈ JsMap.keys (rooms w) →
         JsMap.keys (rooms w') = JsMap.keys (rooms w))
      ∧ (NoDup (created_room_ids (effects w'))
         ↔ NoDup (clk <$> (cidxs ++ [reads w]))).
Proof.
  intros w Hu w' room.
  pose proof (exec_room_create_ok w sid u name Hu) as Hw. cbv zeta in Hw.
  assert (Hc : clock w = clk) by apply clock_run.
  rewrite Hc in Hw. fold room in Hw. fold w' in Hw.
  split; [apply emitted_app; fold w'; by rewrite Hw|].
  split; [rewrite Hw; apply JsMap_get_set_eq|].
  split; [intros k Hk; rewrite Hw; by apply JsMap_get_set_ne|].
  destruct (reachable_created_ids clk evs) as (cidxs & Hids & Hs & _).
  fold w in Hids. rewrite Hc in Hids.
  pose proof (reachable_directory_keys clk evs) as Hkeys. fold w in Hkeys.
  unfold directory_keys in Hkeys.
  exists cidxs. split; [done|]. split; [done|]. split; [|split; [|split]].
  - rewrite Hkeys, Hids. split.
    + intros [Hg|Hin]; [done|].
      apply list_elem_of_fmap in Hin as (i & Hi & Hin).
      apply room_id_Inj in Hi. rewrite Hi. by apply list_elem_of_fmap_2.
    + intros (i & Hi & Hin)%list_elem_of_fmap. right.
      apply list_elem_of_fmap. exists i. simpl. by rewrite Hi.
  - intros Hfresh. rewrite Hw. simpl. by apply JsMap_set_fresh.
  - intros Hin. rewrite Hw. simpl. by apply JsMap_keys_set_present.
  - rewrite Hw. simpl. rewrite created_room_ids_app, Hids. simpl.
    replace (((λ i, "room-" +:+ toString (clk i)) <$> cidxs)
             ++ ["room-" +:+ toString (clk (reads w))])
      with ((λ t, "room-" +:+ toString t) <$> (clk <$> (cidxs ++ [reads w]))).
    + apply (NoDup_fmap _).
    + rewrite <- list_fmap_compose. by rewrite fmap_app.
Qed.

Lemma room_create_id_is_clock_reading_witness :
  socket_data alice_said_hi_ms !! "A" = Some (mkUser "A" "alice" 1700000000000)
  ∧ let w' := exec (room_create "A" " lobby ") alice_said_hi_ms in
    let room := mkRoom "room-1700000000003" "lobby" [] 1700000000003 in
    emitted (room_create "A" " lobby ") alice_said_hi_ms
    = [io_emit (room_created room); callback "A" (create_ack (Some room))]
    ∧ JsMap.get (room_id room) (rooms w') = Some room
    ∧ (∀ k, k ≠ room_id room →
            JsMap.get k (rooms w') = JsMap.get k (rooms alice_said_hi_ms))
    ∧ ∃ cidxs : list nat,
        created_room_ids (effects alice_said_hi_ms)
        = (λ i, "room-" +:+ toString (millisecond_clock i)) <$> cidxs
        ∧ StronglySorted lt cidxs
        ∧ (room_id room ∈ JsMap.keys (rooms alice_said_hi_ms)
           ↔ millisecond_clock (reads alice_said_hi_ms)
             ∈ millisecond_clock <$> cidxs)
        ∧ ((room_id room ∉ JsMap.keys (rooms alice_said_hi_ms)) →
           rooms w' = rooms alice_said_hi_ms ++ [(room_id room, room)])
        ∧ (room_id room ∈ JsMap.keys (rooms alice_said_hi_ms) →
           JsMap.keys (rooms w') = JsMap.keys (rooms alice_said_hi_ms))
        ∧ (NoDup (created_room_ids (effects w'))
           ↔ NoDup (millisecond_clock
                      <$> (cidxs ++ [reads alice_said_hi_ms]))).
Proof.
  split; [by vm_compute|].
  apply (room_create_id_is_clock_reading millisecond_clock
           [("A", req_user_join "alice"); ("A", req_message_send "hi")]
           "A" (mkUser "A" "alice" 1700000000000) " lobby ").
  by vm_compute.
Defined.

(** ** Usernames *)

Lemma same_name_sym a b : same_name a b = same_name b a.
Proof. unfold same_name. apply String.eqb_sym. Qed.

Lemma JsMap_values_delete {V} k (m : JsMap.t V) x :
  x ∈ JsMap.values (JsMap.delete k m) → x ∈ JsMap.values m.
Proof.
  unfold JsMap.values. induction m as [|[k1 v1] m IH]; simpl; [done|].
  destruct (String.eqb k1 k); simpl; rewrite !elem_of_cons; naive_solver.
Qed.

Lemma values_set_distinct k v (m : JsMap.t User) :
  ForallOrdPairs different_names (JsMap.values m) →
  (∀ x, x ∈ JsMap.values m → different_names x v) →
  ForallOrdPairs different_names (JsMap.values (JsMap.set k v m)).
Proof.
  induction m as [|[k1 v1] m IH]; simpl.
  - intros _ _. repeat constructor.
  - intros Hm Hv. inversion Hm as [|? ? Hv1 Hm']; subst.
    assert (Hv' : ∀ x, x ∈ JsMap.values m → different_names x v).
    { intros x Hx. apply Hv. by apply list_elem_of_further. }
    destruct (String.eqb k1 k); simpl; constructor; auto.
    + apply List.Forall_forall. intros x Hx%list_elem_of_In.
      unfold different_names. rewrite same_name_sym. by apply Hv'.
    + apply List.Forall_forall.
      intros x [->|Hx]%list_elem_of_In%JsMap_values_set.
      * apply Hv, list_elem_of_here.
      * rewrite List.Forall_forall in Hv1. by apply Hv1, list_elem_of_In.
Qed.

Lemma values_delete_distinct k (m : JsMap.t User) :
  ForallOrdPairs different_names (JsMap.values m) →
  ForallOrdPairs different_names (JsMap.values (JsMap.delete k m)).
Proof.
  induction m as [|[k1 v1] m IH]; simpl; [done|].
  intros Hm. inversion Hm as [|? ? Hv1 Hm']; subst.
  destruct (String.eqb k1 k); simpl; [by apply IH|].
  constructor; [|by apply IH].
  apply List.Forall_forall. intros x Hx%list_elem_of_In%JsMap_values_delete.
  rewrite List.Forall_forall in Hv1. by apply Hv1, list_elem_of_In.
Qed.

Lemma users_distinct_step w sid r :
  trimmed_join (sid, r) → users_distinct w →
  users_distinct (exec (handle sid r) w).
Proof.
  unfold users_distinct, trimmed_join. intros Htrim Hw.
  assert (Hnew : ∀ username v,
    r = req_user_join username →
    List.find (λ u, same_name (user_username u) username) (JsMap.values (users w))
      = None →
    ∀ x, x ∈ JsMap.values (users w) →
         different_names x (mkUser sid (trim username) v)).
  { intros username v -> Hf x Hx%list_elem_of_In. unfold different_names. simpl.
    rewrite (Htrim username eq_refl). by apply (find_none _ _ Hf). }
  handler_cases w sid r; open_world w; try done.
  - apply values_set_distinct; eauto.
  - apply values_set_distinct; eauto.
  - by apply values_delete_distinct.
Qed.

(** When every join request carries a name without surrounding whitespace
    (the bundled client trims before it sends), no two registered
    participants have the same name up to case. *)
Lemma trimmed_joins_keep_names_distinct clk evs :
  Forall trimmed_join evs → users_distinct (run evs (init clk)).
Proof.
  induction evs as [|[sid r] evs IH] using rev_ind.
  - intros _. constructor.
  - intros [Hevs Hev%Forall_inv]%Forall_app. rewrite run_snoc.
    apply users_distinct_step; [done|by apply IH].
Qed.

(** C1: connection A joins as "alice"; connection B then asks for " alice".
    The collision test compares the stored, trimmed name with the request
    as received, so it finds no collision; the name is trimmed only when it
    is stored.  Both joins succeed and the registry holds two participants
    named "alice": I1 is broken. *)
Theorem padded_name_joins_twice :
  name_taken (run [("A", req_user_join "alice")] (init ticking_clock)) " alice"
  = false
  ∧ same_name "alice" (trim " alice") = true
  ∧ JsMap.values (users alice_and_padded_alice)
    = [mkUser "A" "alice" 1700000000001; mkUser "B" "alice" 1700000000004]
  ∧ last (effects alice_and_padded_alice)
    = Some (callback "B" (join_ack true None))
  ∧ ¬ users_distinct alice_and_padded_alice.
Proof.
  do 4 (split; [by vm_compute|]).
  unfold users_distinct.
  replace (JsMap.values (users alice_and_padded_alice))
    with [mkUser "A" "alice" 1700000000001; mkUser "B" "alice" 1700000000004]
    by by vm_compute.
  intros H. inversion H as [|? ? Hab _]. by inversion Hab.
Qed.

(** ** More on strings *)

Lemma trimStart_id s : starts_with_whitespace s = false → trimStart s = s.
Proof. destruct s as [|c s]; simpl; [done|]. by intros ->. Qed.

Lemma trimEnd_id s : ends_with_whitespace s = false → trimEnd s = s.
Proof.
  induction s as [|c s IH]; [done|]. destruct s as [|d s].
  - simpl. by intros ->.
  - intros Hs. change (ends_with_whitespace (String d s) = false) in Hs.
    change (trimEnd (String c (String d s)))
      with (match trimEnd (String d s) with
            | EmptyString =>
                if isWhiteSpace c then EmptyString else String c EmptyString
            | t => String c t
            end).
    by rewrite (IH Hs).
Qed.

Lemma trim_idempotent s : trim (trim s) = trim s.
Proof.
  destruct (trim_stripped s) as (l & r & _ & _ & _ & Hst & Hend).
  unfold trim at 1. by rewrite trimStart_id, trimEnd_id.
Qed.

Lemma trim_not_blank s : trim s ≠ "" → whitespace_only (trim s) = false.
Proof. intros Hs. apply trim_nonempty_iff. by rewrite trim_idempotent. Qed.

Lemma falsy_false s : falsy s = false ↔ s ≠ "".
Proof. unfold falsy. by destruct (String.eqb_spec s ""). Qed.

Lemma JsMap_get_delete_eq {V} k (m : JsMap.t V) : JsMap.get k (JsMap.delete k m) = None.
Proof.
  induction m as [|[k1 v1] m IH]; simpl; [done|].
  destruct (String.eqb k1 k) eqn:E; simpl; [done|]. by rewrite E.
Qed.

Lemma JsMap_get_delete_ne {V} k k' (m : JsMap.t V) :
  k ≠ k' → JsMap.get k' (JsMap.delete k m) = JsMap.get k' m.
Proof.
  intros Hne. induction m as [|[k1 v1] m IH]; simpl; [done|].
  destruct (String.eqb_spec k1 k) as [->|?]; simpl.
  - by destruct (String.eqb_spec k k').
  - by rewrite IH.
Qed.

(** ** Refusals *)

(** X1: a join request whose name, as received, equals the name of any
    registered participant up to case is answered with "Username already
    taken"; the world is otherwise left as it was. *)
Theorem join_refused_when_name_is_registered w sid k u username :
  JsMap.get k (users w) = Some u →
  same_name (user_username u) username = true →
  whitespace_only username = false →
  exec (user_join sid username) w
  = with_effects
      (effects w ++ [callback sid (join_ack false (Some "Username already taken"))])
      w.
Proof.
  intros Hk Hsame Hn.
  assert (Ht : name_taken w username = true).
  { unfold name_taken. apply existsb_exists. exists u. split; [|done].
    apply list_elem_of_In. by eapply JsMap_get_values. }
  destruct (name_taken_find_Some w username Ht) as [v Hv].
  by eapply exec_user_join_taken.
Qed.

Lemma join_refused_when_name_is_registered_witness :
  JsMap.get "A" (users alice_said_hi) = Some alice
  ∧ same_name (user_username alice) "ALICE" = true
  ∧ whitespace_only "ALICE" = false
  ∧ exec (user_join "B" "ALICE") alice_said_hi
    = with_effects
        (effects alice_said_hi
         ++ [callback "B" (join_ack false (Some "Username already taken"))])
        alice_said_hi.
Proof.
  split; [by vm_compute|]. split; [by vm_compute|]. split; [by vm_compute|].
  apply (join_refused_when_name_is_registered alice_said_hi "B" "A" alice "ALICE");
    by vm_compute.
Defined.

(** X2: a join request with an empty or whitespace-only name is answered
    with "Username cannot be empty", whoever is registered; nothing is
    stored, nobody else is told and the clock is not read. *)
Theorem join_blank_name_refused w sid username :
  whitespace_only username = true →
  same_stores w (exec (user_join sid username) w)
  ∧ reads (exec (user_join sid username) w) = reads w
  ∧ emitted (user_join sid username) w
    = [callback sid (join_ack false (Some "Username cannot be empty"))].
Proof.
  intros Hn. pose proof (exec_user_join_empty w sid username Hn) as Hw.
  split; [|split]; [| |apply emitted_app]; rewrite Hw; by destruct w.
Qed.

Lemma join_blank_name_refused_witness :
  whitespace_only "  " = true
  ∧ same_stores alice_said_hi (exec (user_join "B" "  ") alice_said_hi)
  ∧ reads (exec (user_join "B" "  ") alice_said_hi) = reads alice_said_hi
  ∧ emitted (user_join "B" "  ") alice_said_hi
    = [callback "B" (join_ack false (Some "Username cannot be empty"))].
Proof.
  split; [reflexivity|].
  apply (join_blank_name_refused alice_said_hi "B" "  "). reflexivity.
Defined.

(** X3: a connection that has not joined can change nothing.  Whatever it
    requests other than a join, the registry, the log, the rooms and the
    socket data stay as they were, the clock is not read, and everything
    sent is an acknowledgement or a unicast to that connection. *)
Theorem anonymous_connection_changes_nothing w sid r :
  socket_data w !! sid = None →
  (∀ username, r ≠ req_user_join username) →
  same_stores w (exec (handle sid r) w)
  ∧ reads (exec (handle sid r) w) = reads w
  ∧ forallb (private_to sid) (emitted (handle sid r) w) = true.
Proof.
  intros Hu Hr. unfold emitted, same_stores. revert Hu.
  destruct r as [username|content|limit|name| | | | ];
    [by destruct (Hr username)|..]; simpl handle; intros Hu.
  - rewrite (exec_message_send_anonymous w sid content Hu).
    destruct w; simpl. rewrite drop_app_length. simpl.
    by rewrite String.eqb_refl.
  - rewrite exec_message_getHistory.
    destruct w; simpl. rewrite drop_app_length. simpl.
    by rewrite String.eqb_refl.
  - rewrite (exec_room_create_anonymous w sid name Hu).
    destruct w; simpl. rewrite drop_app_length. simpl.
    by rewrite String.eqb_refl.
  - rewrite exec_room_list.
    destruct w; simpl. rewrite drop_app_length. simpl.
    by rewrite String.eqb_refl.
  - rewrite (exec_typing_start_anonymous w sid Hu). by rewrite drop_all.
  - rewrite exec_typing_stop. by rewrite drop_all.
  - rewrite (exec_disconnect_anonymous w sid Hu). by rewrite drop_all.
Qed.

Lemma anonymous_connection_changes_nothing_witness :
  socket_data alice_said_hi !! "B" = None
  ∧ (∀ username, req_message_send "hello" ≠ req_user_join username)
  ∧ same_stores alice_said_hi
      (exec (handle "B" (req_message_send "hello")) alice_said_hi)
  ∧ reads (exec (handle "B" (req_message_send "hello")) alice_said_hi)
    = reads alice_said_hi
  ∧ forallb (private_to "B")
      (emitted (handle "B" (req_message_send "hello")) alice_said_hi) = true.
Proof.
  split; [by vm_compute|]. split; [by intros username|].
  apply (anonymous_connection_changes_nothing alice_said_hi "B"
           (req_message_send "hello")); [by vm_compute|by intros username].
Defined.

(** X4: the read-only requests.  [message:getHistory], [room:list],
    [typing:start] and [typing:stop] never change the registry, the log, the
    rooms or the socket data, whether the connection has joined or not;
    history and room list are served to any connection, each as one unicast
    to the requester. *)
Theorem queries_leave_stores_unchanged w sid :
  (∀ limit, same_stores w (exec (message_getHistory sid limit) w))
  ∧ same_stores w (exec (room_list sid) w)
  ∧ same_stores w (exec (typing_start sid) w)
  ∧ exec (typing_stop sid) w = w
  ∧ (∀ limit, ∃ history,
       emitted (message_getHistory sid limit) w
       = [socket_emit sid (message_history history)])
  ∧ emitted (room_list sid) w
    = [socket_emit sid (rooms_list (JsMap.values (rooms w)))].
Proof.
  unfold same_stores. split; [|split; [|split; [|split; [|split]]]].
  - intros limit. rewrite exec_message_getHistory. by destruct w.
  - rewrite exec_room_list. by destruct w.
  - destruct (socket_data w !! sid) as [u|] eqn:Hu.
    + rewrite (exec_typing_start_joined w sid u Hu). by destruct w.
    + by rewrite (exec_typing_start_anonymous w sid Hu).
  - apply exec_typing_stop.
  - intros limit. eexists. apply emitted_getHistory.
  - apply emitted_app. rewrite exec_room_list. by destruct w.
Qed.

(** X5: typing.  A joined connection's [typing:start] sends one notification
    "<username> is typing..." to every connection but the sender; from a
    connection that has not joined it sends nothing.  [typing:stop] never
    sends anything, so a notification is never withdrawn. *)
Theorem typing_start_notifies_the_others w sid :
  emitted (typing_stop sid) w = []
  ∧ match socket_data w !! sid with
    | Some u =>
        emitted (typing_start sid) w
        = [socket_broadcast_emit sid
             (notification (user_username u +:+ " is typing..."))]
        ∧ List.filter (delivered_to sid) (emitted (typing_start sid) w) = []
        ∧ ∀ c, c ≠ sid →
               List.filter (delivered_to c) (emitted (typing_start sid) w)
               = emitted (typing_start sid) w
    | None => emitted (typing_start sid) w = []
    end.
Proof.
  split.
  { unfold emitted. rewrite exec_typing_stop. by rewrite drop_all. }
  destruct (socket_data w !! sid) as [u|] eqn:Hu.
  - assert (He : emitted (typing_start sid) w
                 = [socket_broadcast_emit sid
                      (notification (user_username u +:+ " is typing..."))]).
    { apply emitted_app. rewrite (exec_typing_start_joined w sid u Hu).
      by destruct w. }
    rewrite He. simpl. rewrite String.eqb_refl. split; [done|]. split; [done|].
    intros c Hc. by destruct (String.eqb_spec sid c).
  - unfold emitted. rewrite (exec_typing_start_anonymous w sid Hu).
    by rewrite drop_all.
Qed.

(** ** More on history *)

(** X6: for a positive limit [n], [message:getHistory] sends the requester
    the last [min n len] messages of the log: what it sends is a suffix of
    the log of that length.  An omitted limit gives what limit 50 gives. *)
Theorem getHistory_sends_a_suffix w sid n :
  0 < n →
  (∃ older history,
     messages w = older ++ history
     ∧ length history = (Z.to_nat n `min` length (messages w))%nat
     ∧ emitted (message_getHistory sid (Some n)) w
       = [socket_emit sid (message_history history)])
  ∧ emitted (message_getHistory sid None) w
    = emitted (message_getHistory sid (Some 50)) w.
Proof.
  intros Hn. split.
  - exists (take (length (messages w) - Z.to_nat n)%nat (messages w)),
           (tail (Z.to_nat n) (messages w)).
    split; [by rewrite tail_suffix|]. split; [apply tail_length|].
    by apply getHistory_positive.
  - by rewrite !emitted_getHistory.
Qed.

Lemma getHistory_sends_a_suffix_witness :
  0 < 1
  ∧ (∃ older history,
       messages alice_said_hi = older ++ history
       ∧ length history = (Z.to_nat 1 `min` length (messages alice_said_hi))%nat
       ∧ emitted (message_getHistory "A" (Some 1)) alice_said_hi
         = [socket_emit "A" (message_history history)])
  ∧ emitted (message_getHistory "A" None) alice_said_hi
    = emitted (message_getHistory "A" (Some 50)) alice_said_hi.
Proof.
  split; [lia|]. apply (getHistory_sends_a_suffix alice_said_hi "A" 1). lia.
Defined.

(** X7: a negative limit does not limit: [messages.slice(-limit)] then has a
    positive start, and the requester is sent the log without its first
    [-limit] messages (nothing when the log is no longer than that). *)
Theorem getHistory_negative_limit_skips w sid n :
  n < 0 →
  emitted (message_getHistory sid (Some n)) w
  = [socket_emit sid (message_history (drop (Z.to_nat (- n)) (messages w)))].
Proof.
  intros Hn. rewrite emitted_getHistory. simpl. unfold slice.
  destruct (Z.ltb_spec (- n) 0); [lia|]. do 3 f_equal.
  destruct (Z.min_spec (- n) (Z.of_nat (length (messages w)))) as [[_ ->]|[Hle ->]];
    [done|].
  rewrite Nat2Z.id. rewrite !drop_ge; [done|lia|lia].
Qed.

Lemma getHistory_negative_limit_skips_witness :
  -1 < 0
  ∧ emitted (message_getHistory "A" (Some (-1))) alice_said_hi
    = [socket_emit "A"
         (message_history (drop (Z.to_nat (- -1)) (messages alice_said_hi)))].
Proof.
  split; [lia|].
  apply (getHistory_negative_limit_skips alice_said_hi "A" (-1)). lia.
Defined.

(** ** What a join and a disconnect do to the others *)

(** X8: a successful join stores the participant under the connection's id
    with the trimmed name, leaves every other registry entry alone, appends
    the participant to the default room and appends one system message to the
    log.  The announcement quotes the name as received, not the trimmed name
    that was stored. *)
Theorem join_registers_participant w sid username r :
  whitespace_only username = false →
  name_taken w username = false →
  JsMap.get "general" (rooms w) = Some r →
  let w' := exec (user_join sid username) w in
  let user := mkUser sid (trim username) (clock w (reads w)) in
  JsMap.get sid (users w') = Some user
  ∧ socket_data w' !! sid = Some user
  ∧ (∀ k, k ≠ sid → JsMap.get k (users w') = JsMap.get k (users w))
  ∧ JsMap.get "general" (rooms w')
    = Some (set_room_users (λ l, l ++ [user]) r)
  ∧ (∀ k, k ≠ "general" → JsMap.get k (rooms w') = JsMap.get k (rooms w))
  ∧ ∃ m, messages w' = messages w ++ [m]
       ∧ msg_content m = username +:+ " joined the chat"
       ∧ msg_userId m = "system" ∧ msg_username m = "System"
       ∧ msg_type m = system.
Proof.
  intros Hn Ht%name_taken_find Hg w' user. subst w'.
  rewrite (exec_user_join_ok w sid username r Hn Ht Hg). simpl.
  split; [apply JsMap_get_set_eq|]. split; [apply lookup_insert_eq|].
  split; [intros k Hk; by apply JsMap_get_set_ne|].
  split; [apply JsMap_get_set_eq|].
  split; [intros k Hk; by apply JsMap_get_set_ne|].
  by eexists.
Qed.

Lemma join_registers_participant_witness :
  whitespace_only " bob " = false
  ∧ name_taken alice_said_hi " bob " = false
  ∧ JsMap.get "general" (rooms alice_said_hi)
    = Some (mkRoom "general" "General" [alice] 1700000000000)
  ∧ let w' := exec (user_join "B" " bob ") alice_said_hi in
    let user := mkUser "B" (trim " bob ") (clock alice_said_hi (reads alice_said_hi)) in
    JsMap.get "B" (users w') = Some user
    ∧ socket_data w' !! "B" = Some user
    ∧ (∀ k, k ≠ "B" → JsMap.get k (users w') = JsMap.get k (users alice_said_hi))
    ∧ JsMap.get "general" (rooms w')
      = Some (set_room_users (λ l, l ++ [user])
                (mkRoom "general" "General" [alice] 1700000000000))
    ∧ (∀ k, k ≠ "general" →
            JsMap.get k (rooms w') = JsMap.get k (rooms alice_said_hi))
    ∧ ∃ m, messages w' = messages alice_said_hi ++ [m]
         ∧ msg_content m = " bob " +:+ " joined the chat"
         ∧ msg_userId m = "system" ∧ msg_username m = "System"
         ∧ msg_type m = system.
Proof.
  split; [reflexivity|]. split; [by vm_compute|]. split; [by vm_compute|].
  apply (join_registers_participant alice_said_hi "B" " bob "
           (mkRoom "general" "General" [alice] 1700000000000)); by vm_compute.
Defined.

(** X9: the disconnect of a joined connection removes that connection and
    nobody else: its registry entry is gone, every other entry is untouched,
    every room keeps its id, name and creation time and loses exactly the
    members with that connection's id.  The participant-left broadcast goes
    to the others only; the "left the chat" message goes to everybody. *)
Theorem disconnect_removes_only_the_leaver w sid u :
  socket_data w !! sid = Some u →
  let w' := exec (disconnect sid) w in
  JsMap.get sid (users w') = None
  ∧ (∀ k, k ≠ sid → JsMap.get k (users w') = JsMap.get k (users w))
  ∧ (∀ k, JsMap.get k (rooms w')
          = set_room_users (filter (λ v, user_id v ≠ sid)) <$> JsMap.get k (rooms w))
  ∧ ∃ m, emitted (disconnect sid) w
         = [socket_broadcast_emit sid (user_left u); io_emit (message_new m)]
       ∧ List.filter (delivered_to sid) (emitted (disconnect sid) w)
         = [io_emit (message_new m)]
       ∧ messages w' = messages w ++ [m]
       ∧ msg_content m = user_username u +:+ " left the chat"
       ∧ msg_type m = system.
Proof.
  intros Hu w'. pose proof (exec_disconnect_joined w sid u Hu) as Hw.
  cbv zeta in Hw. fold w' in Hw.
  assert (He : emitted (disconnect sid) w
               = drop (length (effects w)) (effects w')) by done.
  rewrite He, Hw. simpl. rewrite drop_app_length.
  split; [apply JsMap_get_delete_eq|].
  split; [intros k Hk; by apply JsMap_get_delete_ne|].
  split; [intros k; apply JsMap_get_forEach|].
  eexists. split; [done|]. simpl. by rewrite String.eqb_refl.
Qed.

Lemma disconnect_removes_only_the_leaver_witness :
  socket_data alice_and_bob !! "A" = Some alice
  ∧ let w' := exec (disconnect "A") alice_and_bob in
    JsMap.get "A" (users w') = None
    ∧ (∀ k, k ≠ "A" → JsMap.get k (users w') = JsMap.get k (users alice_and_bob))
    ∧ (∀ k, JsMap.get k (rooms w')
            = set_room_users (filter (λ v, user_id v ≠ "A"))
                <$> JsMap.get k (rooms alice_and_bob))
    ∧ ∃ m, emitted (disconnect "A") alice_and_bob
           = [socket_broadcast_emit "A" (user_left alice); io_emit (message_new m)]
         ∧ List.filter (delivered_to "A") (emitted (disconnect "A") alice_and_bob)
           = [io_emit (message_new m)]
         ∧ messages w' = messages alice_and_bob ++ [m]
         ∧ msg_content m = user_username alice +:+ " left the chat"
         ∧ msg_type m = system.
Proof.
  split; [by vm_compute|].
  apply (disconnect_removes_only_the_leaver alice_and_bob "A" alice).
  by vm_compute.
Defined.

(** ** More invariants of the reachable worlds *)

Lemma registry_entries_step w sid r :
  registry_entries_sound w → registry_entries_sound (exec (handle sid r) w).
Proof.
  unfold registry_entries_sound. intros Hw.
  assert (Hnew : ∀ username t k u,
            whitespace_only username = false →
            JsMap.get k (JsMap.set sid (mkUser sid (trim username) t) (users w))
              = Some u →
            <[sid := mkUser sid (trim username) t]> (socket_data w) !! k = Some u
            ∧ user_id u = k
            ∧ trim (user_username u) = user_username u
            ∧ user_username u ≠ "").
  { intros username t k u Hn. destruct (decide (k = sid)) as [->|Hne].
    - rewrite JsMap_get_set_eq, lookup_insert_eq. intros [= <-]. simpl.
      split; [done|]. split; [done|]. split; [apply trim_idempotent|].
      by apply trim_nonempty_iff.
    - rewrite JsMap_get_set_ne, lookup_insert_ne by done. apply Hw. }
  handler_cases w sid r; open_world w; try done; eauto.
  intros k u'. destruct (decide (k = sid)) as [->|Hne].
  - by rewrite JsMap_get_delete_eq.
  - rewrite JsMap_get_delete_ne by done. apply Hw.
Qed.

(** X10: every entry of the registry is the participant record of the
    socket it is filed under (the one in [socket.data.user]), carries that
    socket's id, and has a username that is non-empty and free of leading
    and trailing whitespace. *)
Theorem registry_entries_are_socket_users clk evs sid u :
  JsMap.get sid (users (run evs (init clk))) = Some u →
  socket_data (run evs (init clk)) !! sid = Some u
  ∧ user_id u = sid
  ∧ trim (user_username u) = user_username u
  ∧ user_username u ≠ "".
Proof.
  revert sid u. change (registry_entries_sound (run evs (init clk))).
  apply run_ind; [done|]. intros. by apply registry_entries_step.
Qed.

Lemma registry_entries_are_socket_users_witness :
  JsMap.get "B" (users alice_and_bob) = Some bob
  ∧ socket_data alice_and_bob !! "B" = Some bob
  ∧ user_id bob = "B"
  ∧ trim (user_username bob) = user_username bob
  ∧ user_username bob ≠ "".
Proof.
  split; [by vm_compute|].
  apply (registry_entries_are_socket_users ticking_clock
           [("A", req_user_join "alice"); ("A", req_message_send "hi");
            ("B", req_user_join "bob")] "B" bob).
  by vm_compute.
Defined.

Lemma general_is_no_room_id s : String.eqb "general" ("room-" +:+ s) = false.
Proof. reflexivity. Qed.

Lemma registered_in_general_step w sid r :
  registered_in_general w → registered_in_general (exec (handle sid r) w).
Proof.
  unfold registered_in_general. intros (g & Hg & Hw).
  handler_cases w sid r; open_world w; try (by exists g); simplify_eq.
  - (* join *)
    eexists. split; [apply JsMap_get_set_eq|].
    intros c [->|Hc]%JsMap_keys_set; unfold member_of; simpl;
      rewrite fmap_app, elem_of_app.
    + right. by apply list_elem_of_singleton.
    + left. by apply Hw.
  - (* room:create *)
    exists g. split; [|done]. rewrite JsMap_get_set_ne; [done|].
    intros Heq. pose proof (general_is_no_room_id (toString (clk rd))) as Hne.
    rewrite <- Heq in Hne. by rewrite String.eqb_refl in Hne.
  - (* disconnect *)
    eexists. split; [by rewrite JsMap_get_forEach, Hg|].
    intros c [Hne Hc]%JsMap_keys_delete. apply member_of_filter. auto.
Qed.

(** X11: the registry and the default room agree.  In every reachable world
    a connection is registered exactly when it is a member of "general": a
    participant is in the default room from its join to its disconnect, and
    the default room lists nobody else. *)
Theorem registry_matches_default_room clk evs c :
  let w := run evs (init clk) in
  c ∈ JsMap.keys (users w)
  ↔ ∃ g, JsMap.get "general" (rooms w) = Some g ∧ member_of c g.
Proof.
  intros w. split.
  - assert (Hw : registered_in_general w).
    { apply run_ind; [|intros; by apply registered_in_general_step].
      eexists. split; [done|]. intros c'. simpl. by rewrite elem_of_nil. }
    destruct Hw as (g & Hg & Hw). intros Hc. exists g. auto.
  - intros (g & Hg & Hc).
    assert (HI4 : I4 w) by (apply reachable_I4; by eexists _, _).
    eapply HI4; [|done]. by eapply JsMap_get_values.
Qed.

Lemma created_room_set k v rest :
  created_room (k, v) → Forall created_room rest →
  Forall created_room (JsMap.set k v rest).
Proof.
  intros Hv. induction 1 as [|[k1 v1] rest H1 Hrest IH]; simpl.
  - constructor; [done|constructor].
  - destruct (String.eqb_spec k1 k) as [->|?]; constructor; auto.
Qed.

Lemma directory_shape_step w sid r :
  directory_shape w → directory_shape (exec (handle sid r) w).
Proof.
  unfold directory_shape. intros (g & rest & Hrs & Hid & Hname & Hat & Hrest).
  handler_cases w sid r; open_world w; subst; simpl in *;
    try (by exists g, rest); simplify_eq.
  - (* join *) by eexists _, rest.
  - (* room:create *)
    exists g. eexists. split; [done|].
    do 3 (split; [done|]). apply created_room_set; [|done].
    split; [done|]. split; [done|]. simpl.
    intros Heq. pose proof (general_is_no_room_id (toString (clk rd))) as Hne.
    rewrite Heq in Hne. by rewrite String.eqb_refl in Hne.
  - (* disconnect *)
    eexists _, _. split; [done|]. do 3 (split; [done|]).
    apply Forall_fmap. eapply Forall_impl; [done|].
    intros [k [i n members t]] (Hi & Hus & Hk). simpl in *. subst.
    by repeat split.
Qed.

(** X12: the shape of the room directory.  In every reachable world the
    first room is the default room, with id "general", name "General" and
    the creation time read at start-up; every other room is filed under its
    own id, which is never "general", and has no members: the server has no
    way to put a participant into a created room. *)
Theorem directory_is_general_then_empty_rooms clk evs :
  ∃ g rest,
    rooms (run evs (init clk)) = ("general", g) :: rest
    ∧ room_id g = "general" ∧ room_name g = "General"
    ∧ room_createdAt g = clk 0%nat
    ∧ Forall created_room rest.
Proof.
  assert (H : directory_shape (run evs (init clk))).
  { apply run_ind; [|intros; by apply directory_shape_step].
    eexists _, []. by repeat split. }
  destruct H as (g & rest & H). rewrite clock_run in H. eauto.
Qed.

Lemma well_formed_messages_step w sid r :
  Forall well_formed_message (messages w) →
  Forall well_formed_message (messages (exec (handle sid r) w)).
Proof.
  intros Hw. handler_cases w sid r; open_world w; try done;
    apply Forall_app; (split; [done|]); repeat constructor.
  - by apply trim_nonempty_iff.
  - apply trim_idempotent.
Qed.

(** X13: what the log holds.  In every reachable world each text message
    has non-empty content without leading or trailing whitespace, and each
    system message is signed with user id "system" and username "System". *)
Theorem log_holds_well_formed_messages clk evs :
  Forall well_formed_message (messages (run evs (init clk))).
Proof.
  apply run_ind; [constructor|]. intros. by apply well_formed_messages_step.
Qed.

Lemma broadcast_messages_app es es' :
  broadcast_messages (es ++ es') = broadcast_messages es ++ broadcast_messages es'.
Proof.
  induction es as [|e es IH]; simpl; [done|].
  destruct e as [| |[]| |]; simpl; by rewrite ?IH.
Qed.

Lemma broadcast_messages_step w sid r :
  broadcast_messages (effects w) = messages w →
  broadcast_messages (effects (exec (handle sid r) w))
  = messages (exec (handle sid r) w).
Proof.
  intros Hw. handler_cases w sid r; open_world w;
    rewrite ?broadcast_messages_app, ?Hw; simpl; by rewrite ?app_nil_r.
Qed.

(** X14: the log is what was broadcast.  In every reachable world the
    messages of the message-added broadcasts sent to everybody, in the order
    sent, are exactly the message log: every appended message is broadcast
    once, in log order, and nothing is broadcast that is not in the log. *)
Theorem log_is_the_broadcast_sequence clk evs :
  broadcast_messages (effects (run evs (init clk)))
  = messages (run evs (init clk)).
Proof.
  apply run_ind; [done|]. intros. by apply broadcast_messages_step.
Qed.

Lemma no_internal_error_step w sid r :
  is_Some (JsMap.get "general" (rooms w)) →
  Forall (λ e, ¬ internal_server_error e) (effects w) →
  Forall (λ e, ¬ internal_server_error e) (effects (exec (handle sid r) w)).
Proof.
  intros [g Hg] Hw.
  handler_cases w sid r; open_world w; simplify_eq; try done;
    apply Forall_app; (split; [done|]);
    repeat (constructor; [by intros [? ?]|]); constructor.
Qed.

(** X15: the default room is always there.  In every reachable world
    [rooms.get('general')] is defined, so the access to its member list in
    the join handler does not throw: a join request that carries a string
    as its name, which is what [req_user_join] stands for, has never been
    answered with "Internal server error". *)
Theorem join_never_fails_internally clk evs :
  is_Some (JsMap.get "general" (rooms (run evs (init clk))))
  ∧ Forall (λ e, ¬ internal_server_error e) (effects (run evs (init clk))).
Proof.
  apply run_ind.
  - split; [by eexists|constructor].
  - intros w sid r [Hg Hw]. split.
    + by apply general_room_step.
    + by apply no_internal_error_step.
Qed.

Lemma effects_step w sid r :
  effects w `prefix_of` effects (exec (handle sid r) w).
Proof. handler_cases w sid r; open_world w; try done; by eexists. Qed.

(** X16: nothing is taken back.  From any world and along any trace, the
    message log and the sequence of effects only grow at their end, and every
    room key stays in the directory: no handler deletes a message or a
    room. *)
Theorem log_and_rooms_only_grow w evs :
  messages w `prefix_of` messages (run evs w)
  ∧ effects w `prefix_of` effects (run evs w)
  ∧ ∀ k, k ∈ JsMap.keys (rooms w) → k ∈ JsMap.keys (rooms (run evs w)).
Proof.
  induction evs as [|[sid r] evs (IHm & IHe & IHr)] using rev_ind; [done|].
  rewrite run_snoc. unfold step; simpl. split; [|split].
  - etrans; [done|]. destruct (messages_step (run evs w) sid r) as (? & -> & _).
    by eexists.
  - etrans; [done|]. apply effects_step.
  - intros k Hk. by apply keys_step, IHr.
Qed.

(** ** The bundled client against the server *)

Lemma handleLogin_sends value name :
  handleLogin value = [client_emit (req_user_join name)] →
  name = trim value ∧ whitespace_only name = false.
Proof.
  unfold handleLogin. destruct (falsy (trim value)) eqn:Hf; [done|].
  intros [= <-]. split; [done|]. by apply trim_not_blank, falsy_false.
Qed.

Lemma from_client_trimmed ev : from_client ev → trimmed_join ev.
Proof.
  destruct ev as [sid r]. unfold from_client, trimmed_join. simpl.
  intros Hr name ->. destruct Hr as [value [-> _]%handleLogin_sends].
  apply trim_idempotent.
Qed.

(** X17: with the bundled client, usernames are unique.  The client's login
    form trims the name before it sends it, so along every trace whose join
    requests were sent by that form, no two registered participants have the
    same username up to case. *)
Theorem client_joins_keep_names_distinct clk evs :
  Forall from_client evs → users_distinct (run evs (init clk)).
Proof.
  intros Hevs. apply trimmed_joins_keep_names_distinct.
  eapply Forall_impl; [done|]. apply from_client_trimmed.
Qed.

Lemma client_joins_keep_names_distinct_witness :
  Forall from_client
    [("A", req_user_join "alice"); ("B", req_user_join "Alice");
     ("B", req_user_join "bob"); ("A", req_disconnect)]
  ∧ users_distinct
      (run [("A", req_user_join "alice"); ("B", req_user_join "Alice");
            ("B", req_user_join "bob"); ("A", req_disconnect)]
           (init ticking_clock)).
Proof.
  assert (H : Forall from_client
    [("A", req_user_join "alice"); ("B", req_user_join "Alice");
     ("B", req_user_join "bob"); ("A", req_disconnect)]).
  { repeat constructor.
    - by exists " alice".
    - by exists "Alice ".
    - by exists "bob". }
  split; [done|].
  by apply (client_joins_keep_names_distinct ticking_clock).
Defined.

(** X18: the client's message form against the send handler.  For blank
    text the form sends nothing.  Otherwise it sends the trimmed text, and
    for a joined connection the server accepts it: the message is appended
    and broadcast with exactly that text as content, and the acknowledgement
    is a success. *)
Theorem client_message_is_accepted w sid u value :
  socket_data w !! sid = Some u →
  if whitespace_only value then handleSendMessage value = []
  else
    handleSendMessage value = [client_emit (req_message_send (trim value))]
    ∧ ∃ m, emitted (message_send sid (trim value)) w
           = [io_emit (message_new m); callback sid (send_ack true)]
         ∧ messages (exec (message_send sid (trim value)) w) = messages w ++ [m]
         ∧ msg_content m = trim value
         ∧ msg_username m = user_username u.
Proof.
  intros Hu. unfold handleSendMessage.
  destruct (whitespace_only value) eqn:Hn.
  - apply trim_empty_iff in Hn. by rewrite Hn.
  - apply trim_nonempty_iff in Hn.
    destruct (falsy (trim value)) eqn:Hf; [apply falsy_false in Hn; congruence|].
    split; [done|].
    pose proof (exec_message_send_ok w sid u (trim value) Hu
                  (trim_not_blank _ Hn)) as Hw.
    cbv zeta in Hw. eexists. split; [apply emitted_app; by rewrite Hw|].
    split; [by rewrite Hw|]. simpl. split; [apply trim_idempotent|done].
Qed.

Lemma client_message_is_accepted_witness :
  socket_data alice_said_hi !! "A" = Some alice
  ∧ handleSendMessage "  see you " = [client_emit (req_message_send "see you")]
  ∧ ∃ m, emitted (message_send "A" "see you") alice_said_hi
         = [io_emit (message_new m); callback "A" (send_ack true)]
       ∧ messages (exec (message_send "A" "see you") alice_said_hi)
         = messages alice_said_hi ++ [m]
       ∧ msg_content m = "see you"
       ∧ msg_username m = user_username alice.
Proof.
  split; [by vm_compute|].
  apply (client_message_is_accepted alice_said_hi "A" alice "  see you ").
  by vm_compute.
Defined.

(** X19: the client's login form against the join handler.  For blank text
    the form shows "Please enter a username" and sends nothing.  Otherwise it
    sends the trimmed name; the server then never answers "Username cannot
    be empty", and when it accepts the join it stores and announces exactly
    the name the client sent. *)
Theorem client_login_name_is_stored_as_sent value :
  if whitespace_only value then
    handleLogin value = [showToast "Please enter a username" toast_error]
  else
    handleLogin value = [client_emit (req_user_join (trim value))]
    ∧ ∀ w sid,
        last (emitted (user_join sid (trim value)) w)
        ≠ Some (callback sid (join_ack false (Some "Username cannot be empty")))
        ∧ ∀ g, name_taken w (trim value) = false →
               JsMap.get "general" (rooms w) = Some g →
               ∃ u m,
                 JsMap.get sid (users (exec (user_join sid (trim value)) w))
                 = Some u
                 ∧ user_username u = trim value
                 ∧ messages (exec (user_join sid (trim value)) w)
                   = messages w ++ [m]
                 ∧ msg_content m = user_username u +:+ " joined the chat".
Proof.
  unfold handleLogin. destruct (whitespace_only value) eqn:Hn.
  - apply trim_empty_iff in Hn. by rewrite Hn.
  - apply trim_nonempty_iff in Hn.
    destruct (falsy (trim value)) eqn:Hf; [apply falsy_false in Hn; congruence|].
    split; [done|]. intros w sid.
    pose proof (trim_not_blank _ Hn) as Hnb. split.
    + destruct (name_taken w (trim value)) eqn:Ht.
      * by destruct (emitted_join_taken w sid _ Hnb Ht) as [-> _].
      * destruct (JsMap.get "general" (rooms w)) as [g|] eqn:Hg.
        -- by rewrite (emitted_join_ok w sid _ g Hnb Ht Hg).
        -- pose proof (exec_user_join_no_general w sid _ Hnb
                         (name_taken_find _ _ Ht) Hg) as Hw.
           cbv zeta in Hw.
           erewrite emitted_app; [|by rewrite Hw]. done.
    + intros g Ht Hg.
      pose proof (exec_user_join_ok w sid _ g Hnb (name_taken_find _ _ Ht) Hg)
        as Hw.
      cbv zeta in Hw. rewrite Hw. simpl. eexists _, _.
      split; [apply JsMap_get_set_eq|]. simpl.
      split; [apply trim_idempotent|]. split; [done|]. simpl.
      by rewrite trim_idempotent.
Qed.

(** ** Joining and leaving again *)

Lemma JsMap_delete_app {V} k (m m' : JsMap.t V) :
  JsMap.delete k (m ++ m') = JsMap.delete k m ++ JsMap.delete k m'.
Proof.
  induction m as [|[k1 v1] m IH]; simpl; [done|].
  destruct (String.eqb k1 k); simpl; by rewrite IH.
Qed.

Lemma JsMap_delete_set_fresh {V} k (v : V) m :
  k ∉ JsMap.keys m → JsMap.delete k (JsMap.set k v m) = m.
Proof.
  intros Hk. rewrite JsMap_set_fresh, JsMap_delete_app by done.
  rewrite JsMap_delete_absent by done. simpl.
  by rewrite String.eqb_refl, app_nil_r.
Qed.

Lemma JsMap_forEach_set {V} (f : V → V) k v m :
  JsMap.forEach f (JsMap.set k v m) = JsMap.set k (f v) (JsMap.forEach f m).
Proof.
  induction m as [|[k1 v1] m IH]; simpl; [done|].
  destruct (String.eqb k1 k); simpl; by rewrite ?IH.
Qed.

Lemma JsMap_set_same {V} k (v : V) m :
  JsMap.get k m = Some v → JsMap.set k v m = m.
Proof.
  induction m as [|[k1 v1] m IH]; simpl; [done|].
  destruct (String.eqb k1 k); [by intros [= ->]|]. intros Hk. by rewrite IH.
Qed.

Lemma filter_others_id sid (l : list User) :
  sid ∉ user_id <$> l → filter (λ v, user_id v ≠ sid) l = l.
Proof.
  induction l as [|x l IH]; [done|]. rewrite fmap_cons, not_elem_of_cons.
  intros [Hx Hl]. rewrite filter_cons_True by done. by rewrite IH.
Qed.

Lemma set_room_users_id f r :
  f (room_users r) = room_users r → set_room_users f r = r.
Proof. destruct r. unfold set_room_users. simpl. by intros ->. Qed.

(** X20: joining and leaving again.  When a connection that is not
    registered joins successfully and then disconnects, the registry and
    every room are back exactly as they were before the join; what remains
    is the two system messages in the log. *)
Theorem join_then_disconnect_restores w sid username g :
  whitespace_only username = false →
  name_taken w username = false →
  JsMap.get "general" (rooms w) = Some g →
  sid ∉ JsMap.keys (users w) →
  I4 w →
  let w1 := exec (user_join sid username) w in
  let w2 := exec (disconnect sid) w1 in
  users w2 = users w
  ∧ rooms w2 = rooms w
  ∧ ∃ m1 m2, messages w2 = messages w ++ [m1; m2]
           ∧ msg_content m1 = username +:+ " joined the chat"
           ∧ msg_content m2 = trim username +:+ " left the chat".
Proof.
  intros Hn Ht%name_taken_find Hg Hsid HI4 w1 w2.
  pose proof (exec_user_join_ok w sid username g Hn Ht Hg) as H1.
  cbv zeta in H1. fold w1 in H1.
  assert (Hu1 : socket_data w1 !! sid
                = Some (mkUser sid (trim username) (clock w (reads w)))).
  { rewrite H1. simpl. apply lookup_insert_eq. }
  pose proof (exec_disconnect_joined w1 sid _ Hu1) as H2.
  cbv zeta in H2. fold w2 in H2.
  assert (Hmem : ∀ r, r ∈ JsMap.values (rooms w) → sid ∉ user_id <$> room_users r).
  { intros r Hr Hin. apply Hsid. by eapply HI4. }
  rewrite H2. simpl. rewrite H1. simpl. split; [|split].
  - by apply JsMap_delete_set_fresh.
  - rewrite JsMap_forEach_set.
    rewrite (JsMap_forEach_id _ (rooms w)).
    + apply JsMap_set_same. rewrite Hg. f_equal.
      destruct g as [i n members t]. unfold set_room_users. simpl. f_equal.
      rewrite filter_app, filter_others_id.
      * rewrite filter_cons_False, filter_nil by (simpl; tauto).
        by rewrite app_nil_r.
      * apply (Hmem (mkRoom i n members t)). by eapply JsMap_get_values.
    + intros r Hr. apply set_room_users_id, filter_others_id. by apply Hmem.
  - eexists _, _. by rewrite <- app_assoc.
Qed.

Lemma join_then_disconnect_restores_witness :
  whitespace_only " bob " = false
  ∧ name_taken alice_said_hi " bob " = false
  ∧ JsMap.get "general" (rooms alice_said_hi)
    = Some (mkRoom "general" "General" [alice] 1700000000000)
  ∧ ("B" ∉ JsMap.keys (users alice_said_hi))
  ∧ I4 alice_said_hi
  ∧ let w1 := exec (user_join "B" " bob ") alice_said_hi in
    let w2 := exec (disconnect "B") w1 in
    users w2 = users alice_said_hi
    ∧ rooms w2 = rooms alice_said_hi
    ∧ ∃ m1 m2, messages w2 = messages alice_said_hi ++ [m1; m2]
             ∧ msg_content m1 = " bob " +:+ " joined the chat"
             ∧ msg_content m2 = trim " bob " +:+ " left the chat".
Proof.
  assert (Hkeys : "B" ∉ JsMap.keys (users alice_said_hi)).
  { vm_compute. by intros [?|[]%elem_of_nil]%elem_of_cons. }
  assert (HI4 : I4 alice_said_hi).
  { apply reachable_I4. by eexists _, _. }
  split; [reflexivity|]. split; [by vm_compute|]. split; [by vm_compute|].
  split; [done|]. split; [done|].
  by apply (join_then_disconnect_restores alice_said_hi "B" " bob "
              (mkRoom "general" "General" [alice] 1700000000000)).
Defined.
